(** * Spotify search proxy (server.js): a shallow embedding and its properties

    The development follows the layout of [server.js]:
    - [JsString]: the string built-ins the server calls ([trim],
      [toLowerCase], [join]) and the scanning of digits behind [parseInt];
    - [num], [value]: the numbers and the dynamically typed values that flow
      through the handlers (JSON payloads, [undefined], built-in objects),
      with their conversions (ToBoolean, ToString, ToNumber);
    - a small state-and-exception monad [M] over the process-wide token cache,
      the clock and the outbound HTTP calls;
    - [getAccessToken], [buildQuery], [mapTrack], [health] and [search],
      written after the source line by line;
    - the properties of the specification, one theorem per claim.

    Modelling boundaries.  A string is a sequence of UTF-16 code units; the
    model keeps the code units U+0000..U+00FF (one [ascii] each), on which
    [trim] and [toLowerCase] are exact.  A number is [NaN] or an integer:
    double arithmetic is exact on integers of magnitude below 2^53, which is
    where timestamps, lifetimes and limits live.  A request is handled in
    isolation (no interleaving of two handlers at an [await]). *)

From Stdlib Require Import ZArith Ascii Lia.
From stdpp Require Import base strings gmap pretty.

Local Open Scope Z_scope.
#[local] Set Warnings "-register-all".

(** ** Strings *)

Module JsString.

(** WhiteSpace and LineTerminator code units below U+0100: TAB, LF, VT, FF,
    CR, SP and NBSP.  [String.prototype.trim] and [parseInt] strip these. *)
Definition is_ws (c : ascii) : bool :=
  match N_of_ascii c with
  | 9 | 10 | 11 | 12 | 13 | 32 | 160 => true
  | _ => false
  end%N.

Fixpoint trimStart (s : string) : string :=
  match s with
  | EmptyString => EmptyString
  | String c s' => if is_ws c then trimStart s' else s
  end.

Fixpoint trimEnd (s : string) : string :=
  match s with
  | EmptyString => EmptyString
  | String c s' =>
      match trimEnd s' with
      | EmptyString => if is_ws c then EmptyString else String c EmptyString
      | t => String c t
      end
  end.

Definition trim (s : string) : string := trimEnd (trimStart s).

(** Lower-casing of one code unit: A-Z, and the Latin-1 capitals
    U+00C0..U+00DE without the multiplication sign U+00D7. *)
Definition lower_char (c : ascii) : ascii :=
  let n := N_of_ascii c in
  if ((65 <=? n) && (n <=? 90))%N then ascii_of_N (n + 32)
  else if ((192 <=? n) && (n <=? 222) && negb (n =? 215))%N
       then ascii_of_N (n + 32)
  else c.

Fixpoint toLowerCase (s : string) : string :=
  match s with
  | EmptyString => EmptyString
  | String c s' => String (lower_char c) (toLowerCase s')
  end.

(** [Array.prototype.join] on elements already converted to strings. *)
Fixpoint join (sep : string) (l : list string) : string :=
  match l with
  | [] => ""
  | [x] => x
  | x :: r => x +:+ sep +:+ join sep r
  end.

Definition digit (c : ascii) : option Z :=
  let n := N_of_ascii c in
  if ((48 <=? n) && (n <=? 57))%N then Some (Z.of_N n - 48) else None.

(** The longest prefix of decimal digits, read left to right: the value of
    the digits seen so far ([None] before the first one) and the rest. *)
Fixpoint digits (acc : option Z) (s : string) : option Z * string :=
  match s with
  | EmptyString => (acc, EmptyString)
  | String c s' =>
      match digit c with
      | Some d => digits (Some (10 * default 0 acc + d)) s'
      | None => (acc, s)
      end
  end.

(** An optional sign: the factor it stands for and the rest. *)
Definition sign (s : string) : Z * string :=
  match s with
  | String "-" s' => (-1, s')
  | String "+" s' => (1, s')
  | _ => (1, s)
  end.

(** Does [s] contain two consecutive spaces?  [prev] tells whether the
    character before [s] was a space. *)
Fixpoint double_space_from (prev : bool) (s : string) : bool :=
  match s with
  | EmptyString => false
  | String c s' =>
      let sp := Ascii.eqb c " " in
      (prev && sp) || double_space_from sp s'
  end.

Definition has_double_space (s : string) : bool := double_space_from false s.

Definition first_char (s : string) : option ascii :=
  match s with
  | EmptyString => None
  | String c _ => Some c
  end.

Fixpoint last_char (s : string) : option ascii :=
  match s with
  | EmptyString => None
  | String c EmptyString => Some c
  | String _ s' => last_char s'
  end.

Definition nonblank (s : string) : bool :=
  match s with EmptyString => false | _ => true end.

(** [s] is not empty and its first, respectively last, character is not
    white space. *)
Definition starts_ok (s : string) : bool :=
  match first_char s with Some c => negb (is_ws c) | None => false end.

Definition ends_ok (s : string) : bool :=
  match last_char s with Some c => negb (is_ws c) | None => false end.

End JsString.

(** ** Numbers *)

Inductive num : Type :=
| NaN
| Int (z : Z).

Definition num_add (a b : num) : num :=
  match a, b with Int x, Int y => Int (x + y) | _, _ => NaN end.

Definition num_sub (a b : num) : num :=
  match a, b with Int x, Int y => Int (x - y) | _, _ => NaN end.

Definition num_mul (a b : num) : num :=
  match a, b with Int x, Int y => Int (x * y) | _, _ => NaN end.

(** [a < b]: false as soon as an operand is NaN. *)
Definition num_lt (a b : num) : bool :=
  match a, b with Int x, Int y => x <? y | _, _ => false end.

(** [Math.max] and [Math.min]: NaN as soon as an argument is NaN. *)
Definition Math_max (a b : num) : num :=
  match a, b with Int x, Int y => Int (Z.max x y) | _, _ => NaN end.

Definition Math_min (a b : num) : num :=
  match a, b with Int x, Int y => Int (Z.min x y) | _, _ => NaN end.

(** [Number.prototype.toString()], decimal. *)
Definition num_toString (n : num) : string :=
  match n with NaN => "NaN" | Int z => pretty z end.

(** [parseInt(s, 10)]: skip leading white space, read an optional sign, then
    the longest run of decimal digits; NaN when there is none.  Whatever
    follows the digits is ignored. *)
Definition parseInt (s : string) : num :=
  let (sg, r) := JsString.sign (JsString.trimStart s) in
  match fst (JsString.digits None r) with
  | Some n => Int (sg * n)
  | None => NaN
  end.

(** [StringToNumber], on the literals whose value the model has: the empty
    or blank string is 0, an optionally signed run of decimal digits is that
    integer.  Literals with a fraction, an exponent, a radix prefix or
    [Infinity] denote numbers outside the integer model; they are not told
    apart from the strings that are no number at all. *)
Definition StringToNumber (s : string) : num :=
  match JsString.trim s with
  | EmptyString => Int 0
  | t =>
      let (sg, r) := JsString.sign t in
      match JsString.digits None r with
      | (Some n, EmptyString) => Int (sg * n)
      | _ => NaN
      end
  end.

(** ** Exceptions *)

Inductive exn_kind : Type := ErrorK | TypeErrorK | SyntaxErrorK.

(** A thrown error object: its constructor and its [message]. *)
Record exn : Type := Exn { kind : exn_kind; message : string }.

Definition Error (msg : string) : exn := Exn ErrorK msg.
Definition TypeError (msg : string) : exn := Exn TypeErrorK msg.
Definition SyntaxError (msg : string) : exn := Exn SyntaxErrorK msg.

(** The result of evaluating an expression that may throw. *)
Inductive outcome (A : Type) : Type :=
| Returned (a : A)
| Thrown (e : exn).
Arguments Returned {A} a.
Arguments Thrown {A} e.

Definition obind {A B} (c : outcome A) (k : A -> outcome B) : outcome B :=
  match c with
  | Returned a => k a
  | Thrown e => Thrown e
  end.

Notation "x <~ c ;; k" := (obind c (fun x => k))
  (at level 100, c at next level, right associativity).

Fixpoint omap {A B} (f : A -> outcome B) (l : list A) : outcome (list B) :=
  match l with
  | [] => Returned []
  | x :: r => y <~ f x ;; ys <~ omap f r ;; Returned (y :: ys)
  end.

(** ** Values *)

(** The values the handlers meet: what [JSON.parse] produces, [undefined],
    and built-in function objects (reachable through the prototype of a
    plain object).  An object is the list of its own properties; a read takes
    the first binding of the key. *)
Inductive value : Type :=
| VUndef
| VNull
| VBool (b : bool)
| VNum (n : num)
| VStr (s : string)
| VArr (l : list value)
| VObj (fields : list (string * value))
| VFun (name : string).

(** ToBoolean. *)
Definition truthy (v : value) : bool :=
  match v with
  | VUndef | VNull => false
  | VBool b => b
  | VNum NaN => false
  | VNum (Int z) => negb (z =? 0)
  | VStr s => JsString.nonblank s
  | VArr _ | VObj _ | VFun _ => true
  end.

(** [a || b] and [a && b] where evaluating [b] has no effect. *)
Definition js_or (a b : value) : value := if truthy a then a else b.
Definition js_and (a b : value) : value := if truthy a then b else a.

Definition nullish (v : value) : bool :=
  match v with VUndef | VNull => true | _ => false end.

Fixpoint assoc (k : string) (fields : list (string * value)) : option value :=
  match fields with
  | [] => None
  | (k', v) :: r => if String.eqb k k' then Some v else assoc k r
  end.

(** ToString.  An array joins its elements with a comma, [null] and
    [undefined] elements giving the empty string.  A plain object is
    "[object Object]" through the inherited [toString]; an own property of
    that name (never callable in a parsed payload) leaves no way to a
    primitive, and the conversion throws.  A built-in function prints as V8
    prints it. *)
Fixpoint ToString (v : value) : outcome string :=
  match v with
  | VUndef => Returned "undefined"
  | VNull => Returned "null"
  | VBool true => Returned "true"
  | VBool false => Returned "false"
  | VNum n => Returned (num_toString n)
  | VStr s => Returned s
  | VArr l =>
      ss <~ (fix elements (l : list value) : outcome (list string) :=
               match l with
               | [] => Returned []
               | x :: r =>
                   s <~ (if nullish x then Returned "" else ToString x) ;;
                   ss <~ elements r ;;
                   Returned (s :: ss)
               end) l ;;
      Returned (JsString.join "," ss)
  | VObj fields =>
      match assoc "toString" fields with
      | Some _ => Thrown (TypeError "Cannot convert object to primitive value")
      | None => Returned "[object Object]"
      end
  | VFun name => Returned ("function " +:+ name +:+ "() { [native code] }")
  end.

(** [Array.prototype.join(sep)] on an array of values. *)
Definition array_join (sep : string) (l : list value) : outcome string :=
  ss <~ omap (fun x => if nullish x then Returned "" else ToString x) l ;;
  Returned (JsString.join sep ss).

(** ToNumber. *)
Definition ToNumber (v : value) : outcome num :=
  match v with
  | VUndef => Returned NaN
  | VNull => Returned (Int 0)
  | VBool true => Returned (Int 1)
  | VBool false => Returned (Int 0)
  | VNum n => Returned n
  | VStr s => Returned (StringToNumber s)
  | VArr _ => s <~ ToString v ;; Returned (StringToNumber s)
  | VObj _ => s <~ ToString v ;; Returned NaN
  | VFun _ => Returned NaN
  end.

(** Reading property [k] of a payload value that is neither [null] nor
    [undefined].  The names the server reads from payloads (error, message,
    access_token, expires_in, tracks, items, id, name, artists, album, images,
    url, external_urls, spotify, duration_ms, explicit, preview_url) are
    defined on no prototype of a parsed value (Object, Array, String, Number,
    Boolean), so a read that finds no own property is [undefined]; primitives
    and arrays have no own property of these names. *)
Definition field (v : value) (k : string) : value :=
  match v with
  | VObj fields => default VUndef (assoc k fields)
  | _ => VUndef
  end.

(** [v.k]: a TypeError on [null] and [undefined]. *)
Definition member (v : value) (k : string) : outcome value :=
  if nullish v
  then Thrown (TypeError ("Cannot read properties of " +:+
                          (if v is VNull then "null" else "undefined") +:+
                          " (reading '" +:+ k +:+ "')"))
  else Returned (field v k).

(** [v?.k]: short-circuits to [undefined] on [null] and [undefined]. *)
Definition opt_field (v : value) (k : string) : value :=
  if nullish v then VUndef else field v k.

(** [v[i]] for a value that is neither [null] nor [undefined]: an element of
    an array, an own property of an object, a character of a string. *)
Definition index (v : value) (i : nat) : value :=
  match v with
  | VArr l => nth i l VUndef
  | VObj fields => default VUndef (assoc (pretty (Z.of_nat i)) fields)
  | VStr s =>
      match String.get i s with
      | Some c => VStr (String c EmptyString)
      | None => VUndef
      end
  | _ => VUndef
  end.

(** ** The outside world: clock, upstream provider, token cache *)

(** [let tokenCache = { access_token: null, expires_at: 0 }]. *)
Record TokenCache : Type :=
  { access_token : value; expires_at : num }.

Definition initial_cache : TokenCache :=
  {| access_token := VNull; expires_at := Int 0 |}.

(** The two outbound calls.  [TokenRequest] is the POST to
    accounts.spotify.com/api/token with the client identifier and secret as
    Basic credentials and [grant_type=client_credentials] as body;
    [SearchRequest] is the GET on api.spotify.com/v1/search with type
    [track], the given parameters and the bearer credential.  The wire
    encodings (base64, URL encoding) are not modelled. *)
Inductive request : Type :=
| TokenRequest (client_id client_secret : string)
| SearchRequest (q market limit bearer : string).

(** What [r.json()] gives: a parsed value, or a rejection. *)
Inductive payload : Type :=
| NotJson (msg : string)
| Json (data : value).

(** What [fetch] gives: a rejection (transport failure) or a response. *)
Inductive reply : Type :=
| FetchFailed (msg : string)
| Response (status : Z) (body : payload).

(** [r.ok]. *)
Definition ok_status (status : Z) : bool := (200 <=? status) && (status <=? 299).

(** The environment of one run: the successive readings of [Date.now()] and
    the provider's answer to the n-th outbound call. *)
Record Env : Type :=
  { clock : nat -> Z; upstream : nat -> request -> reply }.

(** The state a handler reads and writes: the cache, the number of clock
    readings taken so far, and the outbound calls made so far, oldest first. *)
Record State : Type :=
  { tokenCache : TokenCache; ticks : nat; sent : list request }.

Definition M (A : Type) : Type := Env -> State -> outcome A * State.

Definition ret {A} (a : A) : M A := fun _ st => (Returned a, st).

Definition throw {A} (e : exn) : M A := fun _ st => (Thrown e, st).

Definition bind {A B} (c : M A) (k : A -> M B) : M B :=
  fun env st =>
    match c env st with
    | (Returned a, st') => k a env st'
    | (Thrown e, st') => (Thrown e, st')
    end.

Notation "x <- c ;; k" := (bind c (fun x => k))
  (at level 100, c at next level, right associativity).

(** [try { c } catch (err) { h err }]. *)
Definition try_catch {A} (c : M A) (h : exn -> M A) : M A :=
  fun env st =>
    match c env st with
    | (Returned a, st') => (Returned a, st')
    | (Thrown e, st') => h e env st'
    end.

Definition lift {A} (o : outcome A) : M A := fun _ st => (o, st).

Definition Date_now : M Z :=
  fun env st =>
    (Returned (clock env (ticks st)),
     {| tokenCache := tokenCache st; ticks := S (ticks st); sent := sent st |}).

(** [await fetch(...)]: the call is recorded, then the provider answers. *)
Definition fetch (rq : request) : M (Z * payload) :=
  fun env st =>
    let st' := {| tokenCache := tokenCache st; ticks := ticks st;
                  sent := sent st ++ [rq] |} in
    match upstream env (length (sent st)) rq with
    | FetchFailed msg => (Thrown (TypeError msg), st')
    | Response status body => (Returned (status, body), st')
    end.

(** [await r.json()]. *)
Definition json (body : payload) : M value :=
  match body with
  | NotJson msg => throw (SyntaxError msg)
  | Json data => ret data
  end.

Definition read_cache : M TokenCache := fun _ st => (Returned (tokenCache st), st).

Definition set_access_token (v : value) : M unit :=
  fun _ st =>
    (Returned tt,
     {| tokenCache := {| access_token := v;
                         expires_at := expires_at (tokenCache st) |};
        ticks := ticks st; sent := sent st |}).

Definition set_expires_at (n : num) : M unit :=
  fun _ st =>
    (Returned tt,
     {| tokenCache := {| access_token := access_token (tokenCache st);
                         expires_at := n |};
        ticks := ticks st; sent := sent st |}).

(** ** Responses of the proxy *)

(** The simplified track [mapTrack] builds. *)
Module Track.
Record t : Type :=
  { id : value;
    title : value;
    artists : value;
    album : value;
    image : value;
    url : value;
    duration_ms : value;
    explicit : bool;
    preview_url : value }.
End Track.

(** The objects handed to [res.json]. *)
Inductive body : Type :=
| ErrorBody (error : value)
| ErrorDetails (error : value) (details : value)
| SearchResults (query : string) (results : list Track.t)
| Health (ok : bool) (market : string) (token_cached : bool).

Record response : Type := { status : Z; sent_json : body }.

(** A value of [req.query]: a string, an array (a repeated or bracketed
    parameter) or a nested object (bracketed keys). *)
Inductive qval : Type :=
| QStr (s : string)
| QArr (l : list qval)
| QObj.

(** [req.query]: the four parameters the handler reads, [None] when absent. *)
Record query : Type :=
  { q : option qval; lang : option qval;
    market : option qval; limit : option qval }.

(** [.toString()] on a query value. *)
Fixpoint q_toString (v : qval) : string :=
  match v with
  | QStr s => s
  | QArr l => JsString.join "," (map q_toString l)
  | QObj => "[object Object]"
  end.

(** [(v || dflt).toString()]: an absent or empty parameter takes the default;
    arrays and objects are truthy.  [parseInt(v || dflt, 10)] converts its
    argument to a string the same way. *)
Definition q_or (v : option qval) (dflt : string) : string :=
  match v with
  | None | Some (QStr EmptyString) => dflt
  | Some x => q_toString x
  end.

(** ** Helpers of server.js *)

(** [const LANG_HINT = { hindi: ..., english: ..., ... }]: the own properties
    of the table. *)
Definition LANG_HINT : gmap string string :=
  {[ "hindi" := "Hindi song";
     "english" := "English song";
     "kannada" := "Kannada song";
     "tamil" := "Tamil song";
     "telugu" := "Telugu song" ]}.

(** What a plain object inherits from [Object.prototype]: the built-in
    methods, and [__proto__], which reads as the prototype object itself
    (an object that converts to "[object Object]"). *)
Definition Object_prototype (k : string) : option value :=
  if bool_decide (k = "constructor") then Some (VFun "Object")
  else if bool_decide (k = "__proto__") then Some (VObj [])
  else if bool_decide
            (k ∈ ["hasOwnProperty"; "isPrototypeOf"; "propertyIsEnumerable";
                  "toLocaleString"; "toString"; "valueOf";
                  "__defineGetter__"; "__defineSetter__";
                  "__lookupGetter__"; "__lookupSetter__"])
       then Some (VFun k)
  else None.

(** [LANG_HINT[k]]: an own property, else an inherited one, else
    [undefined]. *)
Definition LANG_HINT_get (k : string) : value :=
  match LANG_HINT !! k with
  | Some phrase => VStr phrase
  | None => default VUndef (Object_prototype k)
  end.

(** [function buildQuery(q, lang)], on the strings the handler passes. *)
Definition buildQuery (q lang : string) : outcome string :=
  let hint :=
    js_or (LANG_HINT_get
             (JsString.toLowerCase (if JsString.nonblank lang then lang else "")))
          (VStr "") in
  s <~ array_join " " (List.filter truthy [VStr q; hint]) ;;
  Returned (JsString.trim s).

(** [t.artists?.map((a) => a.name).join(", ") || ""]. *)
Definition artists_of (t : value) : outcome value :=
  let a := field t "artists" in
  if nullish a then Returned (VStr "")
  else match a with
       | VArr l =>
           names <~ omap (fun a => member a "name") l ;;
           s <~ array_join ", " names ;;
           Returned (js_or (VStr s) (VStr ""))
       | _ => Thrown (TypeError "t.artists?.map is not a function")
       end.

(** The [image] field: album image 0, then 1, then 2, then "". *)
Definition image_of (t : value) : value :=
  let images := opt_field (field t "album") "images" in
  let pick (i : nat) := js_and images (opt_field (index images i) "url") in
  js_or (js_or (js_or (pick 0%nat) (pick 1%nat)) (pick 2%nat)) (VStr "").

(** The [url] field; the template literal is only evaluated when the
    provider's link is falsy. *)
Definition url_of (t : value) : outcome value :=
  let link := opt_field (field t "external_urls") "spotify" in
  if truthy link then Returned link
  else
    id <~ ToString (field t "id") ;;
    Returned (VStr ("https://open.spotify.com/track/" +:+ id)).

(** [function mapTrack(t)]; the fields are evaluated in source order. *)
Definition mapTrack (t : value) : outcome Track.t :=
  id <~ member t "id" ;;
  artists <~ artists_of t ;;
  url <~ url_of t ;;
  Returned
    {| Track.id := id;
       Track.title := field t "name";
       Track.artists := artists;
       Track.album := js_or (opt_field (field t "album") "name") (VStr "");
       Track.image := image_of t;
       Track.url := url;
       Track.duration_ms := field t "duration_ms";
       Track.explicit := truthy (field t "explicit");
       Track.preview_url := js_or (field t "preview_url") VNull |}.

(** [Math.min(Math.max(parseInt(req.query.limit || "24", 10), 1), 50)]. *)
Definition effective_limit (limit : option qval) : num :=
  Math_min (Math_max (parseInt (q_or limit "24")) (Int 1)) (Int 50).

(** [data?.error?.message || data?.error || "Spotify search failed"]. *)
Definition search_error (data : value) : value :=
  js_or (js_or (opt_field (opt_field data "error") "message")
               (opt_field data "error"))
        (VStr "Spotify search failed").

(** ** The token manager and the routes *)

Section Server.

(** [process.env.SPOTIFY_CLIENT_ID || ""], [process.env.SPOTIFY_CLIENT_SECRET
    || ""] and [process.env.SPOTIFY_MARKET || "IN"]. *)
Variables CLIENT_ID CLIENT_SECRET DEFAULT_MARKET : string.

(** [async function getAccessToken()]. *)
Definition getAccessToken : M value :=
  now <- Date_now ;;
  cache <- read_cache ;;
  if truthy (access_token cache)
     && num_lt (Int now) (num_sub (expires_at cache) (Int 10000))
  then ret (access_token cache)
  else
    r <- fetch (TokenRequest CLIENT_ID CLIENT_SECRET) ;;
    data <- json (snd r) ;;
    if negb (ok_status (fst r)) then
      err <- lift (member data "error") ;;
      detail <- lift (ToString (js_or err (VNum (Int (fst r))))) ;;
      throw (Error ("Spotify token failed: " +:+ detail))
    else
      tok <- lift (member data "access_token") ;;
      _ <- set_access_token tok ;;
      now' <- Date_now ;;
      lifetime <- lift (ToNumber (field data "expires_in")) ;;
      _ <- set_expires_at (num_add (Int now') (num_mul lifetime (Int 1000))) ;;
      cache' <- read_cache ;;
      ret (access_token cache').


(** The body of the [try] block of [app.get("/api/search", ...)]. *)
Definition search_try (req : query) : M response :=
  if negb (JsString.nonblank CLIENT_ID) || negb (JsString.nonblank CLIENT_SECRET)
  then ret {| status := 500;
              sent_json := ErrorBody (VStr "Server missing Spotify credentials (.env)") |}
  else
    let qRaw := JsString.trim (q_or (q req) "") in
    if negb (JsString.nonblank qRaw)
    then ret {| status := 400;
                sent_json := ErrorBody (VStr "Missing query parameter: q") |}
    else
      let lang := q_or (lang req) "english" in
      let market := q_or (market req) DEFAULT_MARKET in
      let limit := effective_limit (limit req) in
      q <- lift (buildQuery qRaw lang) ;;
      token <- getAccessToken ;;
      bearer <- lift (ToString token) ;;
      r <- fetch (SearchRequest q market (num_toString limit) bearer) ;;
      data <- json (snd r) ;;
      if negb (ok_status (fst r)) then
        ret {| status := fst r;
               sent_json := ErrorDetails (search_error data) data |}
      else
        tracks <- lift (member data "tracks") ;;
        match js_or (opt_field tracks "items") (VArr []) with
        | VArr items =>
            results <- lift (omap mapTrack items) ;;
            ret {| status := 200; sent_json := SearchResults q results |}
        | _ => throw (TypeError "items.map is not a function")
        end.

(** [app.get("/api/search", ...)]: the [try] block and its [catch]. *)
Definition search (req : query) : M response :=
  try_catch (search_try req)
    (fun err =>
       ret {| status := 500;
              sent_json :=
                ErrorBody (js_or (VStr (message err)) (VStr "Internal error")) |}).

End Server.

(** ** Configuration *)

(** Lines 11-20: what the process reads from its environment when it starts.
    [process.env] is the map of the variables that are set. *)
Module Config.

(** [process.env[k] || dflt], for a string default: an unset variable and an
    empty one both take the default. *)
Definition env_or (penv : gmap string string) (k dflt : string) : string :=
  match penv !! k with
  | Some s => if JsString.nonblank s then s else dflt
  | None => dflt
  end.

(** [const PORT = process.env.PORT || 8080]: the string of the environment,
    or the number 8080. *)
Definition PORT (penv : gmap string string) : value :=
  match penv !! "PORT" with
  | Some s => if JsString.nonblank s then VStr s else VNum (Int 8080)
  | None => VNum (Int 8080)
  end.

Definition CLIENT_ID (penv : gmap string string) : string :=
  env_or penv "SPOTIFY_CLIENT_ID" "".

Definition CLIENT_SECRET (penv : gmap string string) : string :=
  env_or penv "SPOTIFY_CLIENT_SECRET" "".

Definition DEFAULT_MARKET (penv : gmap string string) : string :=
  env_or penv "SPOTIFY_MARKET" "IN".

(** Lines 16-20: is the warning about missing credentials printed? *)
Definition warns (penv : gmap string string) : bool :=
  negb (JsString.nonblank (CLIENT_ID penv))
  || negb (JsString.nonblank (CLIENT_SECRET penv)).

(** The search route of a process started in environment [penv]. *)
Definition search_route (penv : gmap string string) : query -> M response :=
  search (CLIENT_ID penv) (CLIENT_SECRET penv) (DEFAULT_MARKET penv).

End Config.

(** ** Vocabulary of the properties *)

(** The guard of line 30 at time [now]. *)
Definition fresh (now : Z) (c : TokenCache) : bool :=
  truthy (access_token c)
  && num_lt (Int now) (num_sub (expires_at c) (Int 10000)).

(** The guard in the words of the specification: a token is present and
    the current time is strictly before the expiry minus ten seconds. *)
Definition usable (now : Z) (c : TokenCache) : Prop :=
  truthy (access_token c) = true
  /\ exists e, expires_at c = Int e /\ now < e - 10000.

(** The state after one reading of the clock. *)
Definition tick (st : State) : State :=
  {| tokenCache := tokenCache st; ticks := S (ticks st); sent := sent st |}.

(** The state after one reading of the clock and one outbound call. *)
Definition called (rq : request) (st : State) : State :=
  {| tokenCache := tokenCache st; ticks := S (ticks st);
     sent := sent st ++ [rq] |}.

(** The [token_cached] field of a health answer. *)
Definition token_cached (r : response) : option bool :=
  match sent_json r with
  | Health _ _ b => Some b
  | _ => None
  end.

(** The image in the words of the specification: the first non-empty URL
    among the first three entries of the album's image list, in the order the
    provider gave them, and the empty string when there is none. *)
Definition first_image (images : list value) : value :=
  default (VStr "")
    (List.find truthy (map (fun entry => opt_field entry "url") (firstn 3 images))).

(** An entry of [artists] as the provider sends it: an object whose [name]
    is a string. *)
Definition artist_like (a : value) : Prop :=
  exists name, field a "name" = VStr name.

(** What the [catch] clause of the search route answers for [err]. *)
Definition internal_error (err : exn) : response :=
  {| status := 500;
     sent_json := ErrorBody (js_or (VStr (message err)) (VStr "Internal error")) |}.

(** The answer to missing credentials. *)
Definition credentials_error : response :=
  {| status := 500;
     sent_json := ErrorBody (VStr "Server missing Spotify credentials (.env)") |}.

(** The state with one more outbound call. *)
Definition with_call (rq : request) (st : State) : State :=
  {| tokenCache := tokenCache st; ticks := ticks st; sent := sent st ++ [rq] |}.

(** The search request the route builds from the query parameters, the
    augmented query and the printed token. *)
Definition search_request (DEFAULT_MARKET : string) (req : query)
    (qs bearer : string) : request :=
  SearchRequest qs (q_or (market req) DEFAULT_MARKET)
    (num_toString (effective_limit (limit req))) bearer.

(** The request gets as far as the upstream search: credentials are
    configured, [q] is not blank, [buildQuery] gives [qs], the token manager
    returns a token that prints as [bearer] and leaves the state [st1]. *)
Definition reaches_search (CLIENT_ID CLIENT_SECRET : string) (req : query)
    (env : Env) (st : State) (qs bearer : string) (st1 : State) : Prop :=
  CLIENT_ID <> "" /\ CLIENT_SECRET <> ""
  /\ JsString.trim (q_or (q req) "") <> ""
  /\ buildQuery (JsString.trim (q_or (q req) "")) (q_or (lang req) "english")
     = Returned qs
  /\ exists tok,
      getAccessToken CLIENT_ID CLIENT_SECRET env st = (Returned tok, st1)
      /\ ToString tok = Returned bearer.

(** What the route answers once the provider has replied to the search
    (lines 127-144): the rest of the [try] block, with what it throws handed
    to the [catch] clause. *)
Definition search_answer (qs : string) (r : reply) : response :=
  match r with
  | FetchFailed msg => internal_error (TypeError msg)
  | Response _ (NotJson msg) => internal_error (SyntaxError msg)
  | Response s (Json data) =>
      if ok_status s then
        match member data "tracks" with
        | Thrown e => internal_error e
        | Returned tracks =>
            match js_or (opt_field tracks "items") (VArr []) with
            | VArr items =>
                match omap mapTrack items with
                | Returned results =>
                    {| status := 200; sent_json := SearchResults qs results |}
                | Thrown e => internal_error e
                end
            | _ => internal_error (TypeError "items.map is not a function")
            end
        end
      else {| status := s; sent_json := ErrorDetails (search_error data) data |}
  end.

(** ** Sample environments, states and payloads *)

(** A provider that answers every exchange with [token_reply] and every
    search with [search_reply], under a clock that advances by one
    millisecond per reading. *)
Definition provider (token_reply search_reply : reply) : Env :=
  {| clock := fun n => 1700000000000 + Z.of_nat n;
     upstream := fun _ rq =>
                   match rq with
                   | TokenRequest _ _ => token_reply
                   | SearchRequest _ _ _ _ => search_reply
                   end |}.

(** The state of a process that has just started. *)
Definition boot : State :=
  {| tokenCache := initial_cache; ticks := 0; sent := [] |}.


Definition token_payload : value :=
  VObj [("access_token", VStr "BQDx"); ("token_type", VStr "Bearer");
        ("expires_in", VNum (Int 3600))].

(** The state once the token of [token_payload] has been stored. *)
Definition refreshed : State :=
  {| tokenCache := {| access_token := VStr "BQDx";
                      expires_at := Int 1700003600001 |};
     ticks := 2;
     sent := [TokenRequest "id" "secret"] |}.

Definition healthy_provider : Env :=
  provider (Response 200 (Json token_payload))
           (Response 200 (Json (VObj [("tracks", VObj [("items", VArr [])])]))).

(** The provider's answer to a search made with an expired token. *)
Definition expired_payload : value :=
  VObj [("error", VObj [("status", VNum (Int 401));
                        ("message", VStr "The access token expired")])].

Definition rejecting_provider : Env :=
  provider (Response 200 (Json token_payload)) (Response 401 (Json expired_payload)).

Definition request_for (q : string) : query :=
  {| q := Some (QStr q); lang := None; market := None; limit := None |}.

Definition no_query : query :=
  {| q := None; lang := None; market := None; limit := None |}.

(** A track with three images, the first without URL, and no link. *)
Definition sample_track : value :=
  VObj [("id", VStr "6habFhsOp2NvshLv26DqMb");
        ("name", VStr "Tum Hi Ho");
        ("artists", VArr [VObj [("name", VStr "Arijit Singh")];
                          VObj [("name", VStr "Mithoon")]]);
        ("album", VObj [("name", VStr "Aashiqui 2");
                        ("images", VArr [VObj [("url", VStr "")];
                                         VObj [("url", VStr "https://i.scdn.co/image/b")];
                                         VObj [("url", VStr "https://i.scdn.co/image/c")]])]);
        ("duration_ms", VNum (Int 261000))].

(** A provider that refuses the client credentials. *)
Definition refusing_provider : Env :=
  provider (Response 401 (Json (VObj [("error", VStr "invalid_client")])))
           (FetchFailed "unused").

(** A provider whose search cannot be reached. *)
Definition unreachable_provider : Env :=
  provider (Response 200 (Json token_payload)) (FetchFailed "fetch failed").

(** A provider that finds [sample_track]. *)
Definition finding_provider : Env :=
  provider (Response 200 (Json token_payload))
    (Response 200 (Json (VObj [("tracks", VObj [("items", VArr [sample_track])])]))).

(** A provider whose second item is [null]. *)
Definition careless_provider : Env :=
  provider (Response 200 (Json token_payload))
    (Response 200
       (Json (VObj [("tracks", VObj [("items", VArr [sample_track; VNull])])]))).

(** What [mapTrack] makes of [sample_track]. *)
Definition sample_result : Track.t :=
  {| Track.id := VStr "6habFhsOp2NvshLv26DqMb";
     Track.title := VStr "Tum Hi Ho";
     Track.artists := VStr "Arijit Singh, Mithoon";
     Track.album := VStr "Aashiqui 2";
     Track.image := VStr "https://i.scdn.co/image/b";
     Track.url := VStr "https://open.spotify.com/track/6habFhsOp2NvshLv26DqMb";
     Track.duration_ms := VNum (Int 261000);
     Track.explicit := false;
     Track.preview_url := VNull |}.

(** The environment of a process started with both credentials. *)
Definition configured : gmap string string :=
  {[ "SPOTIFY_CLIENT_ID" := "id"; "SPOTIFY_CLIENT_SECRET" := "secret" ]}.

(** * Properties *)

(** ** Strings: [trim] and the shape of its results *)

Section StringFacts.
Import JsString.

Lemma nonblank_true s : nonblank s = true <-> s <> "".
Proof. destruct s; simpl; split; congruence. Qed.

Lemma trimStart_id s : starts_ok s = true -> trimStart s = s.
Proof.
  destruct s as [|c s]; simpl; [done|].
  unfold starts_ok; simpl. by destruct (is_ws c).
Qed.

Lemma trimEnd_id s : ends_ok s = true -> trimEnd s = s.
Proof.
  induction s as [|c s IH]; [done|].
  destruct s as [|c' s'].
  - unfold ends_ok; simpl. by destruct (is_ws c).
  - intros H. change (ends_ok (String c' s') = true) in H.
    specialize (IH H). simpl in *. by rewrite IH.
Qed.

Lemma trimStart_starts s : trimStart s <> "" -> starts_ok (trimStart s) = true.
Proof.
  induction s as [|c s IH]; simpl; [done|].
  destruct (is_ws c) eqn:E; [done|].
  intros _. unfold starts_ok; simpl. by rewrite E.
Qed.

Lemma trimEnd_starts s : starts_ok s = true -> starts_ok (trimEnd s) = true.
Proof.
  destruct s as [|c s]; [done|].
  unfold starts_ok; simpl. intros H.
  apply negb_true_iff in H. rewrite H.
  destruct (trimEnd s); simpl; by rewrite H.
Qed.

Lemma trimEnd_ends s : trimEnd s <> "" -> ends_ok (trimEnd s) = true.
Proof.
  induction s as [|c s IH]; simpl; [done|].
  destruct (trimEnd s) as [|c' t] eqn:E.
  - destruct (is_ws c) eqn:W; [done|].
    intros _. unfold ends_ok; simpl. by rewrite W.
  - intros _. apply IH. done.
Qed.

Lemma trim_shape s :
  trim s <> "" -> starts_ok (trim s) = true /\ ends_ok (trim s) = true.
Proof.
  unfold trim. intros H. split.
  - apply trimEnd_starts, trimStart_starts. intros E. by rewrite E in H.
  - by apply trimEnd_ends.
Qed.

Lemma trim_id s : starts_ok s = true -> ends_ok s = true -> trim s = s.
Proof.
  intros Hs He. unfold trim. rewrite (trimStart_id _ Hs). by apply trimEnd_id.
Qed.

Lemma trim_idempotent s : trim (trim s) = trim s.
Proof.
  destruct (trim s) as [|c t] eqn:E; [done|].
  rewrite <- E. destruct (trim_shape s) as [Hs He]; [by rewrite E|].
  by apply trim_id.
Qed.

Lemma starts_ok_app a b : starts_ok a = true -> starts_ok (a +:+ b) = true.
Proof. by destruct a. Qed.

Lemma last_char_app a b : b <> "" -> last_char (a +:+ b) = last_char b.
Proof.
  intros Hb. induction a as [|c a IH]; [done|].
  simpl. rewrite IH. destruct (a +:+ b) eqn:E; [|done].
  destruct a; simpl in E; [done|discriminate].
Qed.

Lemma ends_ok_app a b : ends_ok b = true -> ends_ok (a +:+ b) = true.
Proof.
  intros H. unfold ends_ok. rewrite last_char_app; [done|].
  intros ->. discriminate.
Qed.

Lemma ws_space c : is_ws c = false -> Ascii.eqb c " " = false.
Proof.
  intros H. destruct (Ascii.eqb c " ") eqn:E; [|done].
  apply Ascii.eqb_eq in E. subst c. discriminate.
Qed.

(** Appending after a string that does not end in a space creates no
    double space at the seam. *)
Lemma double_space_app prev a b :
  ends_ok a = true ->
  double_space_from prev (a +:+ b)
  = double_space_from prev a || double_space_from false b.
Proof.
  revert prev. induction a as [|c a IH]; intros prev He; [done|].
  destruct a as [|c' a'].
  - unfold ends_ok in He; simpl in He.
    apply negb_true_iff, ws_space in He.
    simpl. rewrite He. by rewrite andb_false_r.
  - change (ends_ok (String c' a') = true) in He.
    change (String c (String c' a') +:+ b) with (String c (String c' a' +:+ b)).
    cbn [double_space_from]. rewrite (IH _ He). by rewrite orb_assoc.
Qed.

End StringFacts.

(** ** [buildQuery] *)

Section BuildQuery.
Import JsString.

(** The table holds exactly its five entries. *)
Lemma LANG_HINT_lookup k phrase :
  LANG_HINT !! k = Some phrase ->
  (k, phrase) ∈ [("hindi", "Hindi song"); ("english", "English song");
                 ("kannada", "Kannada song"); ("tamil", "Tamil song");
                 ("telugu", "Telugu song")].
Proof.
  unfold LANG_HINT.
  rewrite !lookup_insert_Some, lookup_singleton_Some.
  rewrite !elem_of_cons. intros H.
  repeat (destruct H as [[<- <-]|[_ H]]; [tauto|]).
  destruct H as [<- <-]. tauto.
Qed.

(** Every phrase of the table is a non-empty string that begins with a
    letter, ends with a letter and has no double space. *)
Lemma LANG_HINT_phrase k phrase :
  LANG_HINT !! k = Some phrase ->
  nonblank phrase = true /\ ends_ok phrase = true
  /\ has_double_space (" " +:+ phrase) = false.
Proof.
  intros H. apply LANG_HINT_lookup in H.
  rewrite !elem_of_cons in H.
  repeat (destruct H as [H|H]; [by inversion H|]).
  by apply elem_of_nil in H.
Qed.

Lemma lang_or_empty lang : (if nonblank lang then lang else "") = lang.
Proof. by destruct lang. Qed.

Lemma starts_ok_nonblank s : starts_ok s = true -> nonblank s = true.
Proof. by destruct s. Qed.

(** A hit in the table appends one space and the phrase. *)
Lemma buildQuery_hit q lang phrase :
  starts_ok q = true -> ends_ok q = true ->
  LANG_HINT !! toLowerCase lang = Some phrase ->
  buildQuery q lang = Returned (q +:+ " " +:+ phrase).
Proof.
  intros Hs He Hk.
  destruct (LANG_HINT_phrase _ _ Hk) as (Hp & Hpe & _).
  unfold buildQuery, LANG_HINT_get. rewrite lang_or_empty, Hk.
  unfold js_or. cbn [truthy List.filter]. rewrite Hp.
  cbn [truthy]. rewrite (starts_ok_nonblank _ Hs), Hp.
  unfold array_join. cbn [omap nullish ToString obind join].
  destruct phrase as [|c p]; [done|]. cbn [join].
  f_equal. apply trim_id.
  - by apply starts_ok_app.
  - by apply ends_ok_app, ends_ok_app.
Qed.

(** A miss in the table and in [Object.prototype] appends nothing. *)
Lemma buildQuery_miss q lang :
  starts_ok q = true -> ends_ok q = true ->
  LANG_HINT !! toLowerCase lang = None ->
  Object_prototype (toLowerCase lang) = None ->
  buildQuery q lang = Returned q.
Proof.
  intros Hs He Hk Hp.
  unfold buildQuery, LANG_HINT_get. rewrite lang_or_empty, Hk, Hp.
  unfold js_or. cbn [default truthy List.filter nonblank].
  rewrite (starts_ok_nonblank _ Hs).
  unfold array_join. cbn [omap nullish ToString obind join].
  f_equal. by apply trim_id.
Qed.

Lemma lower_char_idempotent c : lower_char (lower_char c) = lower_char c.
Proof. destruct c as [[] [] [] [] [] [] [] []]; reflexivity. Qed.

Lemma toLowerCase_idempotent s : toLowerCase (toLowerCase s) = toLowerCase s.
Proof.
  induction s as [|c s IH]; [done|].
  simpl. by rewrite lower_char_idempotent, IH.
Qed.

(** The lookup only sees the lower-cased hint. *)
Lemma buildQuery_case q lang lang' :
  toLowerCase lang = toLowerCase lang' -> buildQuery q lang = buildQuery q lang'.
Proof. intros H. unfold buildQuery. by rewrite !lang_or_empty, H. Qed.

End BuildQuery.

(** ** Claims on query augmentation *)

Section Augmentation.
Import JsString.

(** C4 as the specification words it does not hold: a double space inside
    the query survives, since [trim] only strips the two ends. *)
Lemma buildQuery_keeps_inner_spaces :
  ~ (forall q0 lang : string,
        let q := trim q0 in
        q <> "" ->
        exists result,
          buildQuery q lang = Returned result
          /\ result = match LANG_HINT !! toLowerCase lang with
                      | Some phrase => q +:+ " " +:+ phrase
                      | None => q
                      end
          /\ has_double_space result = false
          /\ first_char result <> Some " "%char
          /\ last_char result <> Some " "%char).
Proof.
  intros H.
  destruct (H "a  b" "english") as (result & Hr & _ & Hd & _).
  - vm_compute. discriminate.
  - vm_compute in Hr. injection Hr as <-. vm_compute in Hd. discriminate.
Qed.

(** C4, amended.  For every query that is not blank and every language
    hint whose lower-cased form names nothing inherited from
    [Object.prototype], [buildQuery] returns the trimmed query, followed by
    one space and the phrase exactly when the lower-cased hint is a key of
    the table.  The result neither begins nor ends with white space, and it
    has a double space only if the trimmed query has one. *)
Theorem buildQuery_shape (q0 lang : string) :
  let q := trim q0 in
  q <> "" ->
  Object_prototype (toLowerCase lang) = None ->
  exists result,
    buildQuery q lang = Returned result
    /\ result = match LANG_HINT !! toLowerCase lang with
                | Some phrase => q +:+ " " +:+ phrase
                | None => q
                end
    /\ starts_ok result = true
    /\ ends_ok result = true
    /\ (has_double_space q = false -> has_double_space result = false).
Proof.
  intros q Hq Hp. destruct (trim_shape q0 Hq) as [Hs He]. fold q in Hs, He.
  destruct (LANG_HINT !! toLowerCase lang) as [phrase|] eqn:Hk.
  - exists (q +:+ " " +:+ phrase).
    destruct (LANG_HINT_phrase _ _ Hk) as (_ & Hpe & Hpd).
    split; [by apply buildQuery_hit|]. split; [done|].
    split; [by apply starts_ok_app|].
    split; [by apply ends_ok_app, ends_ok_app|].
    intros Hd. unfold has_double_space in *.
    rewrite double_space_app by done. by rewrite Hd, Hpd.
  - exists q. split; [by apply buildQuery_miss|]. done.
Qed.

Lemma buildQuery_shape_witness :
  exists result,
    buildQuery (trim " arijit ") "Hindi" = Returned result
    /\ result = match LANG_HINT !! toLowerCase "Hindi" with
                | Some phrase => trim " arijit " +:+ " " +:+ phrase
                | None => trim " arijit "
                end
    /\ starts_ok result = true
    /\ ends_ok result = true
    /\ (has_double_space (trim " arijit ") = false ->
        has_double_space result = false).
Proof.
  apply (buildQuery_shape " arijit " "Hindi").
  - vm_compute. discriminate.
  - vm_compute. reflexivity.
Defined.

(** The example of the specification: [lang=hindi], [q="arijit"]. *)
Example buildQuery_arijit_hindi :
  buildQuery (trim "arijit") "hindi" = Returned "arijit Hindi song".
Proof. reflexivity. Qed.

(** An unknown hint such as "klingon" adds nothing. *)
Example buildQuery_klingon :
  buildQuery (trim " arijit ") "klingon" = Returned "arijit".
Proof. reflexivity. Qed.

(** A hint found neither in the table nor on [Object.prototype] leaves the
    trimmed query alone. *)
Lemma unknown_hint_no_suffix (q0 lang : string) :
  trim q0 <> "" ->
  LANG_HINT !! toLowerCase lang = None ->
  Object_prototype (toLowerCase lang) = None ->
  buildQuery (trim q0) lang = Returned (trim q0).
Proof.
  intros Hq Hk Hp. destruct (trim_shape q0 Hq) as [Hs He].
  by apply buildQuery_miss.
Qed.

(** [(req.query.lang || "english").toString()]: an unset or empty hint is
    "english". *)
Lemma lang_default : q_or None "english" = "english"
                     /\ q_or (Some (QStr "")) "english" = "english".
Proof. done. Qed.

(** C8 at [lang=constructor].  The hint is no key of the table, yet the
    read [LANG_HINT["constructor"]] finds the constructor inherited from
    [Object.prototype], a truthy value that [|| ""] lets through: the
    augmented query is the trimmed query followed by the printed function,
    not the trimmed query alone.  [lang=__proto__] adds "[object Object]"
    the same way. *)
Theorem buildQuery_inherited_hint :
  LANG_HINT !! toLowerCase "constructor" = None
  /\ buildQuery (trim "arijit") "constructor"
     = Returned "arijit function Object() { [native code] }"
  /\ LANG_HINT !! toLowerCase "__proto__" = None
  /\ buildQuery (trim "arijit") "__proto__" = Returned "arijit [object Object]".
Proof. repeat split; reflexivity. Qed.

End Augmentation.

(** ** The limit sent upstream *)

Section Limit.
Import JsString.

(** An unset or empty [limit] is read as "24". *)
Lemma effective_limit_default :
  effective_limit None = Int 24 /\ effective_limit (Some (QStr "")) = Int 24.
Proof. split; reflexivity. Qed.

(** When [parseInt] reads an integer [n], the limit is [n] clamped to
    [1, 50]. *)
Lemma effective_limit_numeric (limit : option qval) (n : Z) :
  parseInt (q_or limit "24") = Int n ->
  effective_limit limit = Int (Z.min (Z.max n 1) 50)
  /\ (n < 1 -> effective_limit limit = Int 1)
  /\ (50 < n -> effective_limit limit = Int 50)
  /\ (1 <= n <= 50 -> effective_limit limit = Int n).
Proof.
  intros H. unfold effective_limit. rewrite H. cbn [Math_max Math_min].
  repeat split; intros; f_equal; lia.
Qed.

(** When [parseInt] reads no digit, NaN goes through [Math.max] and
    [Math.min] unchanged. *)
Lemma effective_limit_nonnumeric (limit : option qval) :
  parseInt (q_or limit "24") = NaN -> effective_limit limit = NaN.
Proof. intros H. unfold effective_limit. by rewrite H. Qed.

(** [parseInt] on a few inputs: leading white space and a sign are read,
    trailing characters ignored, and a string without digit is NaN. *)
Example parseInt_examples :
  parseInt "  12" = Int 12 /\ parseInt "12abc" = Int 12
  /\ parseInt "-5" = Int (-5) /\ parseInt "+7.9" = Int 7
  /\ parseInt "abc" = NaN /\ parseInt "-" = NaN
  /\ parseInt "[object Object]" = NaN.
Proof. repeat split; reflexivity. Qed.

(** X2.  Whatever is requested, the limit is NaN or lies in [1, 50]. *)
Lemma effective_limit_range (limit : option qval) :
  effective_limit limit = NaN
  \/ exists n, effective_limit limit = Int n /\ 1 <= n <= 50.
Proof.
  unfold effective_limit. destruct (parseInt (q_or limit "24")) as [|n].
  - by left.
  - right. eexists. split; [reflexivity|]. lia.
Qed.

(** The examples of the specification: 0, 999, a negative input. *)
Example effective_limit_examples :
  effective_limit (Some (QStr "0")) = Int 1
  /\ effective_limit (Some (QStr "999")) = Int 50
  /\ effective_limit (Some (QStr "-7")) = Int 1
  /\ effective_limit (Some (QStr "24")) = Int 24.
Proof. repeat split; reflexivity. Qed.

(** *** Limits given in decimal *)

Lemma digit_pretty_char d :
  (d < 10)%N -> digit (pretty_N_char d) = Some (Z.of_N d).
Proof.
  intros H.
  assert (d = 0 \/ d = 1 \/ d = 2 \/ d = 3 \/ d = 4 \/ d = 5 \/ d = 6
          \/ d = 7 \/ d = 8 \/ d = 9)%N as Hd by lia.
  repeat (destruct Hd as [->|Hd]; [reflexivity|]). by subst.
Qed.

Lemma digit_plain c d :
  digit c = Some d ->
  is_ws c = false /\ c <> "-"%char /\ c <> "+"%char.
Proof.
  destruct c as [[] [] [] [] [] [] [] []]; intros H; try discriminate H;
    repeat split; done.
Qed.

(** Reading back what [pretty] printed for a natural number. *)
Lemma digits_pretty_go x s :
  digits None (pretty_N_go x s)
  = if decide (x = 0)%N then digits None s else digits (Some (Z.of_N x)) s.
Proof.
  revert s. induction (N.lt_wf_0 x) as [x _ IH]. intros s.
  destruct (decide (x = 0)%N) as [->|Hx]; [done|].
  rewrite pretty_N_go_step by lia.
  rewrite IH by (apply N.div_lt; lia).
  assert (Hm : (x `mod` 10 < 10)%N) by (apply N.mod_lt; lia).
  pose proof (N.div_mod x 10 ltac:(lia)) as Hdm.
  destruct (decide (x `div` 10 = 0)%N) as [H0|H0];
    cbn [digits]; rewrite (digit_pretty_char _ Hm); cbn [default];
    do 2 f_equal; unfold id; lia.
Qed.

Lemma pretty_go_head x s :
  (0 < x)%N -> exists c r d, pretty_N_go x s = String c r /\ digit c = Some d.
Proof.
  revert s. induction (N.lt_wf_0 x) as [x _ IH]. intros s Hx.
  rewrite pretty_N_go_step by done.
  destruct (decide (x `div` 10 = 0)%N) as [H0|H0].
  - rewrite H0, pretty_N_go_0. eexists _, _, _. split; [done|].
    apply digit_pretty_char, N.mod_lt. lia.
  - apply IH; [apply N.div_lt; lia | by apply N.neq_0_lt_0].
Qed.

Lemma sign_digit c r d : digit c = Some d -> sign (String c r) = (1, String c r).
Proof.
  intros H. unfold sign.
  destruct c as [[] [] [] [] [] [] [] []]; try discriminate H; done.
Qed.

Lemma parseInt_pretty_pos p : parseInt (pretty (Npos p)) = Int (Zpos p).
Proof.
  unfold pretty, pretty_N. destruct (decide (N.pos p = 0)%N); [done|].
  destruct (pretty_go_head (Npos p) "" ltac:(lia)) as (c & r & d & E & Hc).
  destruct (digit_plain _ _ Hc) as (Hw & _).
  pose proof (digits_pretty_go (Npos p) "") as Hd.
  rewrite E in *. unfold parseInt. cbn [trimStart]. rewrite Hw.
  rewrite (sign_digit _ _ _ Hc), Hd.
  by destruct (decide (N.pos p = 0)%N).
Qed.

(** A minus sign before a string that begins with a digit. *)
Lemma parseInt_minus c r d n :
  digit c = Some d ->
  parseInt (String c r) = Int n ->
  parseInt (String "-" (String c r)) = Int (- n).
Proof.
  intros Hc H. destruct (digit_plain _ _ Hc) as (Hw & _).
  unfold parseInt in *. cbn [trimStart] in H. rewrite Hw in H.
  rewrite (sign_digit _ _ _ Hc) in H.
  replace (trimStart (String "-" (String c r))) with (String "-" (String c r))
    by reflexivity.
  cbn [sign]. destruct (fst (digits None (String c r))) as [v|]; [|done].
  injection H as H. f_equal. lia.
Qed.

(** [parseInt] reads back the decimal form of every integer. *)
Lemma parseInt_pretty (n : Z) : parseInt (pretty n) = Int n.
Proof.
  destruct n as [|p|p]; [done| apply parseInt_pretty_pos |].
  pose proof (parseInt_pretty_pos p) as H.
  change (pretty (Z.neg p)) with ("-" +:+ pretty (Npos p)).
  unfold pretty, pretty_N in *. destruct (decide (N.pos p = 0)%N); [done|].
  destruct (pretty_go_head (Npos p) "" ltac:(lia)) as (c & r & d & E & Hc).
  rewrite E in *.
  change (parseInt (String "-" (String c r)) = Int (- Z.pos p)).
  by apply (parseInt_minus c r d).
Qed.

Lemma pretty_nonblank (n : Z) : nonblank (pretty n) = true.
Proof.
  destruct n as [|p|p]; [done| |done].
  change (pretty (Z.pos p)) with (pretty (N.pos p)).
  unfold pretty, pretty_N. destruct (decide (N.pos p = 0)%N); [done|].
  destruct (pretty_go_head (Npos p) "" ltac:(lia)) as (c & r & d & E & _).
  by rewrite E.
Qed.

(** X1.  A limit given as a decimal integer is clamped to [1, 50]: values
    below 1 give 1, values above 50 give 50, the others pass unchanged. *)
Lemma effective_limit_integer (n : Z) :
  effective_limit (Some (QStr (pretty n))) = Int (Z.min (Z.max n 1) 50).
Proof.
  unfold effective_limit, q_or. pose proof (pretty_nonblank n) as H.
  destruct (pretty n) as [|c r] eqn:E; [done|].
  cbn [q_toString]. rewrite <- E, parseInt_pretty. done.
Qed.

End Limit.

(** ** The token manager *)

Section TokenManager.

Variables CLIENT_ID CLIENT_SECRET : string.

Local Abbreviation exchange := (TokenRequest CLIENT_ID CLIENT_SECRET).

Lemma getAccessToken_cached env st :
  fresh (clock env (ticks st)) (tokenCache st) = true ->
  getAccessToken CLIENT_ID CLIENT_SECRET env st = (Returned (access_token (tokenCache st)), tick st).
Proof.
  intros H. unfold fresh in H.
  unfold getAccessToken, bind, Date_now, read_cache.
  cbn [tokenCache ticks sent]. by rewrite H.
Qed.

(** The run up to the provider's answer, when the guard fails. *)
Lemma getAccessToken_stale env st :
  fresh (clock env (ticks st)) (tokenCache st) = false ->
  getAccessToken CLIENT_ID CLIENT_SECRET env st =
  match upstream env (length (sent st)) exchange with
  | FetchFailed msg => (Thrown (TypeError msg), called exchange st)
  | Response s body =>
      (data <- json body ;;
       if negb (ok_status s) then
         err <- lift (member data "error") ;;
         detail <- lift (ToString (js_or err (VNum (Int s)))) ;;
         throw (Error ("Spotify token failed: " +:+ detail))
       else
         tok <- lift (member data "access_token") ;;
         _ <- set_access_token tok ;;
         now' <- Date_now ;;
         lifetime <- lift (ToNumber (field data "expires_in")) ;;
         _ <- set_expires_at (num_add (Int now') (num_mul lifetime (Int 1000))) ;;
         cache' <- read_cache ;;
         ret (access_token cache')) env (called exchange st)
  end.
Proof.
  intros H. unfold fresh in H.
  unfold getAccessToken at 1, bind at 1 2 3, Date_now at 1, read_cache at 1.
  cbn [tokenCache ticks sent]. rewrite H.
  unfold fetch. cbn [tokenCache ticks sent].
  by destruct (upstream env (length (sent st)) exchange).
Qed.

Lemma fresh_usable now c : fresh now c = true <-> usable now c.
Proof.
  unfold fresh, usable. rewrite andb_true_iff. split.
  - intros [Ht Hl]. split; [done|].
    destruct (expires_at c) as [|e]; [done|].
    exists e. split; [done|]. cbn in Hl. lia.
  - intros [Ht (e & -> & Hl)]. split; [done|]. cbn. lia.
Qed.

Lemma not_usable_stale now c : ~ usable now c -> fresh now c = false.
Proof.
  intros H. destruct (fresh now c) eqn:E; [|done].
  by apply fresh_usable in E.
Qed.

(** A refresh whose exchange succeeds. *)
Lemma getAccessToken_refresh env st s data lifetime :
  fresh (clock env (ticks st)) (tokenCache st) = false ->
  upstream env (length (sent st)) exchange = Response s (Json data) ->
  ok_status s = true ->
  nullish data = false ->
  ToNumber (field data "expires_in") = Returned lifetime ->
  getAccessToken CLIENT_ID CLIENT_SECRET env st =
  (Returned (field data "access_token"),
   {| tokenCache :=
        {| access_token := field data "access_token";
           expires_at := num_add (Int (clock env (S (ticks st))))
                                 (num_mul lifetime (Int 1000)) |};
      ticks := S (S (ticks st));
      sent := sent st ++ [exchange] |}).
Proof.
  intros Hf Hr Hok Hd Hl.
  rewrite (getAccessToken_stale _ _ Hf), Hr.
  unfold json, bind, ret, member, lift. rewrite Hok, Hd, Hl. reflexivity.
Qed.

(** Whatever the provider answers, a refresh makes one outbound call, the
    exchange, and no other. *)
Lemma getAccessToken_sends_once env st :
  fresh (clock env (ticks st)) (tokenCache st) = false ->
  sent (snd (getAccessToken CLIENT_ID CLIENT_SECRET env st))
  = sent st ++ [exchange].
Proof.
  intros Hf. rewrite (getAccessToken_stale _ _ Hf).
  destruct (upstream env (length (sent st)) exchange) as [msg|s [msg|data]];
    [done|done|].
  unfold json, bind, ret, member, lift, throw.
  destruct (ok_status s); cbn [negb]; destruct (nullish data); try done.
  - by destruct (ToNumber (field data "expires_in")).
  - by destruct (ToString _).
Qed.



End TokenManager.

(** ** Runs of the token manager on concrete answers *)




(** The error of the witness, spelled out. *)
Example getAccessToken_invalid_client :
  fst (getAccessToken "id" "secret"
         (provider (Response 401 (Json (VObj [("error", VStr "invalid_client")])))
                   (FetchFailed "unused")) boot)
  = Thrown (Error "Spotify token failed: invalid_client").
Proof. reflexivity. Qed.

(** ** The routes *)

Section Routes.
Import JsString.

Variables CLIENT_ID CLIENT_SECRET DEFAULT_MARKET : string.

Local Abbreviation exchange := (TokenRequest CLIENT_ID CLIENT_SECRET).


Lemma missing_credentials :
  CLIENT_ID = "" \/ CLIENT_SECRET = "" ->
  negb (nonblank CLIENT_ID) || negb (nonblank CLIENT_SECRET) = true.
Proof. intros [-> | ->]; [done|]. apply orb_true_r. Qed.

Lemma present_credentials :
  CLIENT_ID <> "" -> CLIENT_SECRET <> "" ->
  negb (nonblank CLIENT_ID) || negb (nonblank CLIENT_SECRET) = false.
Proof.
  intros H1 H2. apply nonblank_true in H1, H2. by rewrite H1, H2.
Qed.

(** C9.  While the client identifier or the client secret is missing,
    every search request is answered 500 with
    "Server missing Spotify credentials (.env)", whatever [q] is and before
    anything else happens (no clock reading, no outbound call); so no such
    request is answered 400. *)
Theorem search_credentials_first req env st :
  CLIENT_ID = "" \/ CLIENT_SECRET = "" ->
  search CLIENT_ID CLIENT_SECRET DEFAULT_MARKET req env st
  = (Returned {| status := 500;
                 sent_json :=
                   ErrorBody (VStr "Server missing Spotify credentials (.env)") |},
     st)
  /\ forall r st', search CLIENT_ID CLIENT_SECRET DEFAULT_MARKET req env st = (Returned r, st') -> status r <> 400.
Proof.
  intros H. apply missing_credentials in H.
  assert (E : search CLIENT_ID CLIENT_SECRET DEFAULT_MARKET req env st
              = (Returned {| status := 500;
                   sent_json :=
                     ErrorBody (VStr "Server missing Spotify credentials (.env)") |},
                 st)).
  { unfold search, try_catch, search_try. by rewrite H. }
  split; [done|]. intros r st'. rewrite E. by intros [= <- <-].
Qed.

(** C6, amended.  With both credentials configured, every search request
    whose [q] is absent or blank after trimming is answered 400 with
    "Missing query parameter: q"; the state is untouched, so neither the
    token exchange nor the search is sent. *)
Theorem search_missing_query req env st :
  CLIENT_ID <> "" -> CLIENT_SECRET <> "" ->
  trim (q_or (q req) "") = "" ->
  search CLIENT_ID CLIENT_SECRET DEFAULT_MARKET req env st
  = (Returned {| status := 400;
                 sent_json := ErrorBody (VStr "Missing query parameter: q") |},
     st).
Proof.
  intros H1 H2 Hq. unfold search, try_catch, search_try.
  by rewrite (present_credentials H1 H2), Hq.
Qed.

(** An absent [q], an empty one and one made of spaces are all blank. *)
Lemma blank_queries :
  trim (q_or None "") = ""
  /\ trim (q_or (Some (QStr "")) "") = ""
  /\ trim (q_or (Some (QStr "   ")) "") = ""
  /\ trim (q_or (Some (QArr [QStr " "])) "") = "".
Proof. repeat split; reflexivity. Qed.

(** C5, amended.  Take a search request that gets as far as the upstream
    search call: credentials configured, [q] not blank, a token obtained.
    When that call answers with a non-success status and a body that parses
    as JSON, the proxy answers with the same status and with the body
    [{ error, details }], where [details] is the payload as received and
    [error] is [payload.error.message] if truthy, else [payload.error] if
    truthy, else "Spotify search failed".  The search call is the last
    outbound call of the request: nothing is retried. *)
Theorem search_upstream_error req env st qs tok st1 bearer s data :
  CLIENT_ID <> "" -> CLIENT_SECRET <> "" ->
  trim (q_or (q req) "") <> "" ->
  buildQuery (trim (q_or (q req) "")) (q_or (lang req) "english") = Returned qs ->
  getAccessToken CLIENT_ID CLIENT_SECRET env st = (Returned tok, st1) ->
  ToString tok = Returned bearer ->
  let rq := SearchRequest qs (q_or (market req) DEFAULT_MARKET)
              (num_toString (effective_limit (limit req))) bearer in
  upstream env (length (sent st1)) rq = Response s (Json data) ->
  ok_status s = false ->
  search CLIENT_ID CLIENT_SECRET DEFAULT_MARKET req env st
  = (Returned {| status := s;
                 sent_json := ErrorDetails (search_error data) data |},
     {| tokenCache := tokenCache st1; ticks := ticks st1;
        sent := sent st1 ++ [rq] |})
  /\ forall m, opt_field (opt_field data "error") "message" = VStr m ->
               m <> "" -> search_error data = VStr m.
Proof.
  intros H1 H2 Hq Hb Ht Hs rq Hr Hok. split.
  - apply nonblank_true in Hq.
    unfold search, try_catch, search_try.
    rewrite (present_credentials H1 H2), Hq. cbn [negb].
    unfold bind, lift. rewrite Hb, Ht, Hs.
    unfold fetch. fold rq. rewrite Hr. cbn [snd fst json ret].
    rewrite Hok. reflexivity.
  - intros m Hm Hne. apply nonblank_true in Hne.
    assert (Htr : truthy (VStr m) = true) by done.
    unfold search_error. rewrite Hm. unfold js_or. by rewrite Htr, Htr.
Qed.

End Routes.

(** ** Runs of the routes on concrete requests *)


Lemma search_credentials_first_witness :
  search "" "secret" "IN" no_query healthy_provider boot
  = (Returned {| status := 500;
                 sent_json :=
                   ErrorBody (VStr "Server missing Spotify credentials (.env)") |},
     boot)
  /\ forall r st',
      search "" "secret" "IN" no_query healthy_provider boot = (Returned r, st') ->
      status r <> 400.
Proof.
  apply (search_credentials_first "" "secret" "IN" no_query healthy_provider boot).
  left. reflexivity.
Defined.

(** C6 as the specification words it does not hold: without credentials a
    request with no [q] is answered 500, not 400. *)
Lemma search_missing_query_unconfigured :
  JsString.trim (q_or (q no_query) "") = ""
  /\ search "" "" "IN" no_query healthy_provider boot
     = (Returned {| status := 500;
                    sent_json :=
                      ErrorBody (VStr "Server missing Spotify credentials (.env)") |},
        boot).
Proof. split; reflexivity. Qed.

Lemma search_missing_query_witness :
  search "id" "secret" "IN" (request_for "   ") healthy_provider boot
  = (Returned {| status := 400;
                 sent_json := ErrorBody (VStr "Missing query parameter: q") |},
     boot).
Proof.
  apply (search_missing_query "id" "secret" "IN" (request_for "   ")
           healthy_provider boot).
  - discriminate.
  - discriminate.
  - reflexivity.
Defined.

Lemma search_upstream_error_witness :
  let rq := SearchRequest "arijit English song" "IN" "24" "BQDx" in
  search "id" "secret" "IN" (request_for "arijit") rejecting_provider boot
  = (Returned {| status := 401;
                 sent_json :=
                   ErrorDetails (search_error expired_payload) expired_payload |},
     {| tokenCache := tokenCache refreshed; ticks := ticks refreshed;
        sent := sent refreshed ++ [rq] |})
  /\ forall m,
      opt_field (opt_field expired_payload "error") "message" = VStr m ->
      m <> "" -> search_error expired_payload = VStr m.
Proof.
  apply (search_upstream_error "id" "secret" "IN" (request_for "arijit")
           rejecting_provider boot "arijit English song" (VStr "BQDx")
           refreshed "BQDx" 401 expired_payload);
    try reflexivity; discriminate.
Defined.

(** The error field of the witness is the provider's message. *)
Example search_error_expired :
  search_error expired_payload = VStr "The access token expired".
Proof. reflexivity. Qed.

(** C5 as the specification words it does not hold: a non-success answer
    whose body is not JSON (an HTML page from a gateway, say) makes
    [r.json()] reject; the [catch] clause then answers 500 with the parser's
    message, not the upstream status. *)
Lemma search_unparsable_error_body :
  let env := provider (Response 200 (Json token_payload))
               (Response 503 (NotJson "Unexpected token < in JSON at position 0")) in
  let rq := SearchRequest "arijit English song" "IN" "24" "BQDx" in
  upstream env 1 rq
  = Response 503 (NotJson "Unexpected token < in JSON at position 0")
  /\ ok_status 503 = false
  /\ search "id" "secret" "IN" (request_for "arijit") env boot
     = (Returned {| status := 500;
                    sent_json :=
                      ErrorBody (VStr "Unexpected token < in JSON at position 0") |},
        {| tokenCache := tokenCache refreshed; ticks := 2;
           sent := [TokenRequest "id" "secret"; rq] |}).
Proof. repeat split; reflexivity. Qed.

(** C2 at [limit=abc].  [parseInt] reads no digit and gives NaN; [Math.max]
    and [Math.min] hand NaN on, so the limit is neither the default nor a
    value of [1, 50], and the search is sent upstream with [limit=NaN]. *)
Theorem effective_limit_not_a_number :
  let req := {| q := Some (QStr "arijit"); lang := None; market := None;
                limit := Some (QStr "abc") |} in
  effective_limit (limit req) = NaN
  /\ sent (snd (search "id" "secret" "IN" req healthy_provider boot))
     = [TokenRequest "id" "secret";
        SearchRequest "arijit English song" "IN" "NaN" "BQDx"].
Proof. split; reflexivity. Qed.

(** The inherited hint reaches the provider as part of the query. *)
Example search_lang_constructor :
  sent (snd (search "id" "secret" "IN"
               {| q := Some (QStr "arijit"); lang := Some (QStr "constructor");
                  market := None; limit := None |}
               healthy_provider boot))
  = [TokenRequest "id" "secret";
     SearchRequest "arijit function Object() { [native code] }" "IN" "24" "BQDx"].
Proof. reflexivity. Qed.

(** Token reuse: a second search within the validity window sends no second
    exchange. *)
Example search_twice_one_exchange :
  let st1 := snd (search "id" "secret" "IN" (request_for "arijit")
                    healthy_provider boot) in
  sent (snd (search "id" "secret" "IN" (request_for "rahman")
               healthy_provider st1))
  = [TokenRequest "id" "secret";
     SearchRequest "arijit English song" "IN" "24" "BQDx";
     SearchRequest "rahman English song" "IN" "24" "BQDx"].
Proof. reflexivity. Qed.

(** ** [mapTrack] *)

Section MapTrack.

Lemma field_not_nullish v k s : field v k = VStr s -> nullish v = false.
Proof. by destruct v. Qed.

Lemma image_of_list t images :
  opt_field (field t "album") "images" = VArr images ->
  image_of t = first_image images.
Proof.
  intros H. unfold image_of, first_image. rewrite H.
  unfold js_and. cbn [truthy index].
  destruct images as [|a [|b [|c r]]]; cbn [nth firstn map List.find default];
    unfold js_or; cbn [opt_field nullish truthy];
    repeat (match goal with
            | |- context [truthy (opt_field ?x "url")] =>
                destruct (truthy (opt_field x "url")) eqn:?
            end; cbn [truthy]; try done);
    done.
Qed.

Lemma image_of_absent t :
  truthy (opt_field (field t "album") "images") = false ->
  image_of t = VStr "".
Proof.
  intros H. unfold image_of, js_and, js_or.
  repeat rewrite H. reflexivity.
Qed.

Lemma artist_names l :
  Forall artist_like l ->
  exists names,
    omap (fun a => member a "name") l = Returned (map VStr names).
Proof.
  induction 1 as [|a l [name Ha] _ (names & IH)].
  - by exists [].
  - exists (name :: names). cbn [omap]. unfold member at 1.
    rewrite (field_not_nullish _ _ _ Ha), Ha. cbn [obind]. by rewrite IH.
Qed.

Lemma array_join_strings sep names :
  array_join sep (map VStr names) = Returned (JsString.join sep names).
Proof.
  unfold array_join.
  assert (E : omap (fun x => if nullish x then Returned "" else ToString x)
                (map VStr names) = Returned names).
  { induction names as [|n names IH]; [done|]. cbn. cbn in IH. by rewrite IH. }
  by rewrite E.
Qed.

Lemma artists_of_returns t :
  nullish (field t "artists") = true
  \/ (exists l, field t "artists" = VArr l /\ Forall artist_like l) ->
  exists v, artists_of t = Returned v.
Proof.
  unfold artists_of. intros [H|(l & H & Hl)]; rewrite H.
  - by eexists.
  - cbn [nullish]. destruct (artist_names l Hl) as (names & ->).
    cbn [obind]. rewrite array_join_strings. by eexists.
Qed.

(** C7.  For every track object whose [id] is a string and whose [artists]
    entry is absent or a list of named artists, [mapTrack] returns a
    simplified track.  Its image is the first non-empty [url] among the
    first three entries of the album's image list, in the provider's order,
    and the empty string when no entry has one or when the album has no
    image list.  Its url is [external_urls.spotify] when that field holds a
    non-empty value, and otherwise "https://open.spotify.com/track/"
    followed by the track id. *)
Theorem mapTrack_image_url t id :
  field t "id" = VStr id ->
  nullish (field t "artists") = true
  \/ (exists l, field t "artists" = VArr l /\ Forall artist_like l) ->
  exists r,
    mapTrack t = Returned r
    /\ (forall images,
           opt_field (field t "album") "images" = VArr images ->
           Track.image r = first_image images)
    /\ (truthy (opt_field (field t "album") "images") = false ->
        Track.image r = VStr "")
    /\ Track.url r
       = (let link := opt_field (field t "external_urls") "spotify" in
          if truthy link then link
          else VStr ("https://open.spotify.com/track/" +:+ id)).
Proof.
  intros Hid Ha. destruct (artists_of_returns t Ha) as [a Hart].
  unfold mapTrack, member. rewrite (field_not_nullish _ _ _ Hid), Hart.
  cbn [obind]. unfold url_of. rewrite Hid.
  destruct (truthy (opt_field (field t "external_urls") "spotify")) eqn:Hl;
    cbn [ToString obind]; eexists; (split; [reflexivity|]);
    cbn [Track.image Track.url]; rewrite ?Hl;
    (split; [apply image_of_list|split; [apply image_of_absent|done]]).
Qed.

End MapTrack.

Lemma mapTrack_image_url_witness :
  exists r,
    mapTrack sample_track = Returned r
    /\ (forall images,
           opt_field (field sample_track "album") "images" = VArr images ->
           Track.image r = first_image images)
    /\ (truthy (opt_field (field sample_track "album") "images") = false ->
        Track.image r = VStr "")
    /\ Track.url r
       = (let link := opt_field (field sample_track "external_urls") "spotify" in
          if truthy link then link
          else VStr ("https://open.spotify.com/track/" +:+ "6habFhsOp2NvshLv26DqMb")).
Proof.
  apply (mapTrack_image_url sample_track "6habFhsOp2NvshLv26DqMb").
  - reflexivity.
  - right. eexists. split; [reflexivity|].
    repeat constructor; eexists; reflexivity.
Defined.

(** The examples of the specification: three images give the first URL, no
    image gives the empty string, no link gives the constructed URL. *)
Example mapTrack_sample :
  mapTrack sample_track
  = Returned
      {| Track.id := VStr "6habFhsOp2NvshLv26DqMb";
         Track.title := VStr "Tum Hi Ho";
         Track.artists := VStr "Arijit Singh, Mithoon";
         Track.album := VStr "Aashiqui 2";
         Track.image := VStr "https://i.scdn.co/image/b";
         Track.url := VStr "https://open.spotify.com/track/6habFhsOp2NvshLv26DqMb";
         Track.duration_ms := VNum (Int 261000);
         Track.explicit := false;
         Track.preview_url := VNull |}.
Proof. reflexivity. Qed.

Example mapTrack_bare :
  mapTrack (VObj [("id", VStr "x1");
                  ("external_urls", VObj [("spotify", VStr "https://open.spotify.com/track/x1?si=1")])])
  = Returned
      {| Track.id := VStr "x1";
         Track.title := VUndef;
         Track.artists := VStr "";
         Track.album := VStr "";
         Track.image := VStr "";
         Track.url := VStr "https://open.spotify.com/track/x1?si=1";
         Track.duration_ms := VUndef;
         Track.explicit := false;
         Track.preview_url := VNull |}.
Proof. reflexivity. Qed.

(** Whenever [mapTrack] returns, the image and the url are the ones the two
    helper expressions select. *)
Lemma mapTrack_fields t r :
  mapTrack t = Returned r ->
  Track.image r = image_of t /\ url_of t = Returned (Track.url r).
Proof.
  unfold mapTrack.
  destruct (member t "id"); [|done].
  destruct (artists_of t); [|done].
  destruct (url_of t); [|done].
  cbn [obind]. by intros [= <-].
Qed.

(** * Further properties of the code *)

(** ** [buildQuery] on arbitrary arguments *)

Section BuildQueryMore.
Import JsString.

(** What [LANG_HINT[k]] can be: a phrase of the table, an inherited built-in
    function, the prototype object, or [undefined]. *)
Lemma LANG_HINT_get_cases k :
  (exists phrase, LANG_HINT !! k = Some phrase /\ LANG_HINT_get k = VStr phrase)
  \/ (exists name, LANG_HINT_get k = VFun name)
  \/ LANG_HINT_get k = VObj []
  \/ LANG_HINT_get k = VUndef.
Proof.
  unfold LANG_HINT_get. destruct (LANG_HINT !! k) as [phrase|]; [by eauto|].
  right. unfold Object_prototype.
  repeat (case_bool_decide; [cbn; by eauto|]). cbn. by eauto.
Qed.

Lemma LANG_HINT_phrase_starts k phrase :
  LANG_HINT !! k = Some phrase -> starts_ok phrase = true.
Proof.
  intros H. apply LANG_HINT_lookup in H.
  rewrite !elem_of_cons in H.
  repeat (destruct H as [H|H]; [by inversion H|]).
  by apply elem_of_nil in H.
Qed.

Lemma trim_empty_or_shape s :
  trim s = "" \/ (starts_ok (trim s) = true /\ ends_ok (trim s) = true).
Proof.
  destruct (trim s) as [|c t] eqn:E; [by left|].
  right. rewrite <- E. apply trim_shape. by rewrite E.
Qed.

(** X3.  [buildQuery] returns for every pair of strings, and what it returns
    is trimmed: the empty string, or a string that neither begins nor ends
    with white space. *)
Theorem buildQuery_trimmed (q lang : string) :
  exists result,
    buildQuery q lang = Returned result
    /\ (result = ""
        \/ (starts_ok result = true /\ ends_ok result = true)).
Proof.
  unfold buildQuery. rewrite lang_or_empty.
  destruct (LANG_HINT_get_cases (toLowerCase lang))
    as [(phrase & _ & ->)|[(name & ->)|[->| ->]]]; unfold js_or; cbn [truthy].
  - destruct (nonblank phrase) eqn:Hp; cbn [List.filter truthy nonblank];
      rewrite ?Hp; destruct (nonblank q);
      unfold array_join; cbn [omap nullish ToString obind];
      eexists; (split; [reflexivity|]); apply trim_empty_or_shape.
  - cbn [List.filter truthy]. destruct (nonblank q);
      unfold array_join; cbn [omap nullish ToString obind];
      eexists; (split; [reflexivity|]); apply trim_empty_or_shape.
  - cbn [List.filter truthy]. destruct (nonblank q);
      unfold array_join; cbn [omap nullish ToString assoc obind];
      eexists; (split; [reflexivity|]); apply trim_empty_or_shape.
  - cbn [List.filter truthy nonblank]. destruct (nonblank q);
      unfold array_join; cbn [omap nullish ToString obind];
      eexists; (split; [reflexivity|]); apply trim_empty_or_shape.
Qed.

Lemma trimStart_blank_app q s : trimStart q = "" -> trimStart (q +:+ s) = trimStart s.
Proof.
  induction q as [|c q IH]; [done|].
  intros H. simpl in *. destruct (is_ws c); [by apply IH|discriminate].
Qed.

Lemma trim_blank s : trim s = "" -> trimStart s = "".
Proof.
  unfold trim. intros H. destruct (trimStart s) as [|c t] eqn:E; [done|].
  exfalso. assert (Hs : starts_ok (trimStart s) = true).
  { apply trimStart_starts. by rewrite E. }
  apply trimEnd_starts in Hs. rewrite E in Hs. by rewrite H in Hs.
Qed.

(** X4.  A query that is empty or blank contributes nothing.  When the
    lower-cased hint names nothing inherited from [Object.prototype],
    [buildQuery] then returns the phrase of the hint alone, and the empty
    string when the hint is no key of the table. *)
Theorem buildQuery_blank_query (q lang : string) :
  trim q = "" ->
  Object_prototype (toLowerCase lang) = None ->
  buildQuery q lang
  = Returned (default "" (LANG_HINT !! toLowerCase lang)).
Proof.
  intros Hq Hp. unfold buildQuery, LANG_HINT_get. rewrite lang_or_empty, Hp.
  destruct (LANG_HINT !! toLowerCase lang) as [phrase|] eqn:Hk.
  - destruct (LANG_HINT_phrase _ _ Hk) as (Hn & He & _).
    pose proof (LANG_HINT_phrase_starts _ _ Hk) as Hs.
    unfold js_or. cbn [truthy List.filter default]. rewrite Hn. cbn [truthy].
    rewrite Hn. destruct (nonblank q) eqn:Hb.
    + unfold array_join. cbn [omap nullish ToString obind].
      destruct phrase as [|c p]; [done|]. cbn [join]. f_equal.
      unfold trim. rewrite (trimStart_blank_app _ _ (trim_blank _ Hq)).
      change (trimStart (" " +:+ String c p)) with (trimStart (String c p)).
      by apply trim_id.
    + unfold array_join. cbn [omap nullish ToString obind join]. f_equal.
      by apply trim_id.
  - unfold js_or. cbn [default truthy List.filter nonblank].
    destruct (nonblank q) eqn:Hb;
      unfold array_join; cbn [omap nullish ToString obind join]; by f_equal.
Qed.

End BuildQueryMore.

Lemma buildQuery_blank_query_witness :
  buildQuery "   " "Tamil" = Returned (default "" (LANG_HINT !! JsString.toLowerCase "Tamil")).
Proof.
  apply (buildQuery_blank_query "   " "Tamil"); vm_compute; reflexivity.
Defined.

(** ** The token manager over several calls *)

Section TokenManagerMore.

Variables CLIENT_ID CLIENT_SECRET : string.

Local Abbreviation exchange := (TokenRequest CLIENT_ID CLIENT_SECRET).

(** X5.  Whenever [getAccessToken] returns, what it returns is what the
    cache holds afterwards. *)
Theorem getAccessToken_returns_cached env st v st' :
  getAccessToken CLIENT_ID CLIENT_SECRET env st = (Returned v, st') ->
  access_token (tokenCache st') = v.
Proof.
  destruct (fresh (clock env (ticks st)) (tokenCache st)) eqn:Hf.
  - rewrite (getAccessToken_cached _ _ _ _ Hf). by intros [= <- <-].
  - rewrite (getAccessToken_stale _ _ _ _ Hf).
    destruct (upstream env (length (sent st)) exchange) as [msg|s [msg|data]];
      [done|done|].
    unfold json, bind, ret, member, lift, throw.
    destruct (ok_status s); cbn [negb]; destruct (nullish data); try done.
    + destruct (ToNumber (field data "expires_in")); [|done].
      by intros [= <- <-].
    + by destruct (ToString _).
Qed.

(** X6.  Two calls in a row.  After a refresh that stored a truthy token
    with the lifetime [n] seconds at time [stored], the next call, made at
    time [later], returns that token without any outbound call when
    [later < stored + n * 1000 - 10000], and sends a second exchange
    otherwise. *)
Theorem token_reuse_window env st s data n :
  ~ usable (clock env (ticks st)) (tokenCache st) ->
  upstream env (length (sent st)) exchange = Response s (Json data) ->
  ok_status s = true ->
  truthy (field data "access_token") = true ->
  field data "expires_in" = VNum (Int n) ->
  let st1 := snd (getAccessToken CLIENT_ID CLIENT_SECRET env st) in
  let stored := clock env (S (ticks st)) in
  let later := clock env (S (S (ticks st))) in
  (later < stored + n * 1000 - 10000 ->
   getAccessToken CLIENT_ID CLIENT_SECRET env st1
   = (Returned (field data "access_token"), tick st1))
  /\ (stored + n * 1000 - 10000 <= later ->
      sent (snd (getAccessToken CLIENT_ID CLIENT_SECRET env st1))
      = sent st ++ [exchange; exchange]).
Proof.
  intros Hu Hr Hok Ht Hn st1 stored later.
  assert (Hd : nullish data = false) by (by destruct data).
  assert (E : getAccessToken CLIENT_ID CLIENT_SECRET env st
              = (Returned (field data "access_token"),
                 {| tokenCache :=
                      {| access_token := field data "access_token";
                         expires_at := Int (stored + n * 1000) |};
                    ticks := S (S (ticks st));
                    sent := sent st ++ [exchange] |})).
  { rewrite (getAccessToken_refresh _ _ env st s data (Int n)); try done.
    - by apply not_usable_stale.
    - by rewrite Hn. }
  subst st1. rewrite E. cbn [snd]. split; intros H.
  - apply getAccessToken_cached. unfold fresh. cbn. rewrite Ht. cbn.
    apply Z.ltb_lt. fold later. lia.
  - rewrite getAccessToken_sends_once.
    + cbn [sent]. by rewrite <- app_assoc.
    + unfold fresh. cbn. rewrite Ht. cbn. apply Z.ltb_ge. fold later. lia.
Qed.


End TokenManagerMore.

Lemma getAccessToken_returns_cached_witness :
  access_token (tokenCache refreshed) = VStr "BQDx".
Proof.
  apply (getAccessToken_returns_cached "id" "secret" healthy_provider boot
           (VStr "BQDx") refreshed).
  reflexivity.
Defined.

Lemma token_reuse_window_witness :
  let st1 := snd (getAccessToken "id" "secret" healthy_provider boot) in
  (clock healthy_provider 2 < clock healthy_provider 1 + 3600 * 1000 - 10000 ->
   getAccessToken "id" "secret" healthy_provider st1
   = (Returned (field token_payload "access_token"), tick st1))
  /\ (clock healthy_provider 1 + 3600 * 1000 - 10000 <= clock healthy_provider 2 ->
      sent (snd (getAccessToken "id" "secret" healthy_provider st1))
      = sent boot ++ [TokenRequest "id" "secret"; TokenRequest "id" "secret"]).
Proof.
  apply (token_reuse_window "id" "secret" healthy_provider boot 200
           token_payload 3600).
  - intros [H _]. discriminate H.
  - reflexivity.
  - reflexivity.
  - reflexivity.
  - reflexivity.
Defined.


(** ** The search route, path by path *)

Section RoutesMore.
Import JsString.

Variables CLIENT_ID CLIENT_SECRET DEFAULT_MARKET : string.

Local Abbreviation exchange := (TokenRequest CLIENT_ID CLIENT_SECRET).

(** The route past its two guards: the token manager runs, the token is
    printed, the search is sent and its reply answered. *)
Lemma search_run req env st qs :
  CLIENT_ID <> "" -> CLIENT_SECRET <> "" ->
  trim (q_or (q req) "") <> "" ->
  buildQuery (trim (q_or (q req) "")) (q_or (lang req) "english") = Returned qs ->
  search CLIENT_ID CLIENT_SECRET DEFAULT_MARKET req env st =
  match getAccessToken CLIENT_ID CLIENT_SECRET env st with
  | (Thrown e, st1) => (Returned (internal_error e), st1)
  | (Returned tok, st1) =>
      match ToString tok with
      | Thrown e => (Returned (internal_error e), st1)
      | Returned bearer =>
          let rq := search_request DEFAULT_MARKET req qs bearer in
          (Returned (search_answer qs (upstream env (length (sent st1)) rq)),
           with_call rq st1)
      end
  end.
Proof.
  intros H1 H2 Hq Hb. apply nonblank_true in Hq.
  unfold search, try_catch, search_try.
  rewrite (present_credentials _ _ H1 H2), Hq. cbn [negb].
  unfold bind, lift. rewrite Hb.
  destruct (getAccessToken CLIENT_ID CLIENT_SECRET env st) as [[tok|e] st1];
    [|done].
  destruct (ToString tok) as [bearer|e]; [|done].
  unfold fetch, search_request, search_answer, with_call.
  destruct (upstream env (length (sent st1)) _) as [msg|s [msg|data]];
    [done|done|].
  cbn [snd fst json ret]. destruct (ok_status s); cbn [negb]; [|done].
  destruct (member data "tracks") as [tracks|e]; [|done].
  destruct (js_or (opt_field tracks "items") (VArr [])); try done.
  by destruct (omap mapTrack l).
Qed.

Lemma reaches_search_run req env st qs bearer st1 :
  reaches_search CLIENT_ID CLIENT_SECRET req env st qs bearer st1 ->
  search CLIENT_ID CLIENT_SECRET DEFAULT_MARKET req env st
  = (Returned (search_answer qs
                 (upstream env (length (sent st1))
                    (search_request DEFAULT_MARKET req qs bearer))),
     with_call (search_request DEFAULT_MARKET req qs bearer) st1).
Proof.
  intros (H1 & H2 & Hq & Hb & tok & Ht & Hs).
  rewrite (search_run _ _ _ _ H1 H2 Hq Hb), Ht. by rewrite Hs.
Qed.

Lemma search_answer_status qs r :
  ok_status (status (search_answer qs r)) = true ->
  status (search_answer qs r) = 200.
Proof.
  unfold search_answer. destruct r as [msg|s [msg|data]]; [done|done|].
  destruct (ok_status s) eqn:Hs; [|cbn; congruence].
  destruct (member data "tracks") as [tracks|e]; [|done].
  destruct (js_or (opt_field tracks "items") (VArr [])); try done.
  by destruct (omap mapTrack l).
Qed.

(** X8.  The search route answers every request: whatever the query, the
    clock and the provider do, the handler returns a response and lets no
    error escape.  The only success status it answers is 200. *)
Theorem search_always_answers req env st :
  exists r st',
    search CLIENT_ID CLIENT_SECRET DEFAULT_MARKET req env st = (Returned r, st')
    /\ (ok_status (status r) = true -> status r = 200).
Proof.
  destruct (negb (nonblank CLIENT_ID) || negb (nonblank CLIENT_SECRET)) eqn:Hc.
  - unfold search, try_catch, search_try. rewrite Hc. by eexists _, _.
  - destruct (nonblank (trim (q_or (q req) ""))) eqn:Hq.
    + apply orb_false_iff in Hc as [Hi Hs].
      apply negb_false_iff, nonblank_true in Hi, Hs.
      apply nonblank_true in Hq.
      destruct (buildQuery_trimmed (trim (q_or (q req) ""))
                  (q_or (lang req) "english")) as (qs & Hb & _).
      rewrite (search_run _ _ _ _ Hi Hs Hq Hb).
      destruct (getAccessToken CLIENT_ID CLIENT_SECRET env st) as [[tok|e] st1];
        [|by eexists _, _].
      destruct (ToString tok) as [bearer|e]; [|by eexists _, _].
      eexists _, _. split; [reflexivity|]. apply search_answer_status.
    + unfold search, try_catch, search_try. rewrite Hc, Hq. by eexists _, _.
Qed.

(** X9.  When the token manager throws, the route answers 500 with the
    message of the error ("Internal error" if it is empty) and sends no
    search: the exchange is the only outbound call of the request. *)
Theorem search_token_failure req env st e st1 :
  CLIENT_ID <> "" -> CLIENT_SECRET <> "" ->
  trim (q_or (q req) "") <> "" ->
  getAccessToken CLIENT_ID CLIENT_SECRET env st = (Thrown e, st1) ->
  search CLIENT_ID CLIENT_SECRET DEFAULT_MARKET req env st
  = (Returned (internal_error e), st1)
  /\ sent st1 = sent st ++ [exchange].
Proof.
  intros H1 H2 Hq Ht.
  destruct (buildQuery_trimmed (trim (q_or (q req) ""))
              (q_or (lang req) "english")) as (qs & Hb & _).
  rewrite (search_run _ _ _ _ H1 H2 Hq Hb), Ht. split; [done|].
  destruct (fresh (clock env (ticks st)) (tokenCache st)) eqn:Hf.
  - rewrite (getAccessToken_cached _ _ _ _ Hf) in Ht. discriminate.
  - pose proof (getAccessToken_sends_once CLIENT_ID CLIENT_SECRET _ _ Hf) as Hs.
    by rewrite Ht in Hs.
Qed.

(** X10.  When the search call fails in transit, or answers with a body
    that is not JSON, the route answers 500 with the message of the failure
    ("Internal error" if it is empty); the search is not sent again. *)
Theorem search_unreadable_reply req env st qs bearer st1 msg :
  reaches_search CLIENT_ID CLIENT_SECRET req env st qs bearer st1 ->
  let rq := search_request DEFAULT_MARKET req qs bearer in
  upstream env (length (sent st1)) rq = FetchFailed msg
  \/ (exists s, upstream env (length (sent st1)) rq = Response s (NotJson msg)) ->
  search CLIENT_ID CLIENT_SECRET DEFAULT_MARKET req env st
  = (Returned {| status := 500;
                 sent_json := ErrorBody (js_or (VStr msg) (VStr "Internal error")) |},
     with_call rq st1).
Proof.
  intros Hr rq Hu. rewrite (reaches_search_run _ _ _ _ _ _ Hr). fold rq.
  by destruct Hu as [-> | [s ->]].
Qed.

End RoutesMore.

(** ** The search route on a success answer *)

Section RoutesResults.
Import JsString.

Variables CLIENT_ID CLIENT_SECRET DEFAULT_MARKET : string.

Lemma omap_Forall2 {A B} (f : A -> outcome B) l rs :
  Forall2 (fun x r => f x = Returned r) l rs -> omap f l = Returned rs.
Proof.
  induction 1 as [|x r l rs Hx _ IH]; [done|].
  cbn [omap]. by rewrite Hx, IH.
Qed.

Lemma omap_first_failure {A B} (f : A -> outcome B) before x after e :
  Forall (fun y => exists r, f y = Returned r) before ->
  f x = Thrown e ->
  omap f (before ++ x :: after) = Thrown e.
Proof.
  intros Hb Hx. induction Hb as [|y before [r Hy] _ IH].
  - cbn. by rewrite Hx.
  - cbn [app omap]. by rewrite Hy, IH.
Qed.

(** X11.  When the search answers with a success status and a JSON object
    whose [tracks.items] is a list, and [mapTrack] returns on each item, the
    route answers 200 with the augmented query and the simplified tracks,
    one per item and in the order of the items. *)
Theorem search_success req env st qs bearer st1 s data items results :
  reaches_search CLIENT_ID CLIENT_SECRET req env st qs bearer st1 ->
  let rq := search_request DEFAULT_MARKET req qs bearer in
  upstream env (length (sent st1)) rq = Response s (Json data) ->
  ok_status s = true ->
  opt_field (field data "tracks") "items" = VArr items ->
  Forall2 (fun t r => mapTrack t = Returned r) items results ->
  search CLIENT_ID CLIENT_SECRET DEFAULT_MARKET req env st
  = (Returned {| status := 200; sent_json := SearchResults qs results |},
     with_call rq st1).
Proof.
  intros Hr rq Hu Hok Hi Hm.
  rewrite (reaches_search_run _ _ _ _ _ _ _ _ _ Hr). fold rq. rewrite Hu.
  assert (Hd : nullish data = false).
  { destruct data; try done; by destruct items. }
  unfold search_answer, member. rewrite Hok, Hd, Hi.
  unfold js_or. cbn [truthy]. by rewrite (omap_Forall2 _ _ _ Hm).
Qed.

(** X12.  A success answer without tracks is not an error.  When the JSON
    object has no [tracks], or its [tracks.items] is missing, [null] or
    otherwise falsy, the route answers 200 with an empty list of results. *)
Theorem search_no_items req env st qs bearer st1 s data :
  reaches_search CLIENT_ID CLIENT_SECRET req env st qs bearer st1 ->
  let rq := search_request DEFAULT_MARKET req qs bearer in
  upstream env (length (sent st1)) rq = Response s (Json data) ->
  ok_status s = true ->
  nullish data = false ->
  truthy (opt_field (field data "tracks") "items") = false ->
  search CLIENT_ID CLIENT_SECRET DEFAULT_MARKET req env st
  = (Returned {| status := 200; sent_json := SearchResults qs [] |},
     with_call rq st1).
Proof.
  intros Hr rq Hu Hok Hd Hi.
  rewrite (reaches_search_run _ _ _ _ _ _ _ _ _ Hr). fold rq. rewrite Hu.
  unfold search_answer, member. rewrite Hok, Hd.
  unfold js_or. by rewrite Hi.
Qed.

(** X13.  One item that [mapTrack] cannot map fails the whole answer.  When
    [mapTrack] throws on an item and returned on the items before it, the
    route answers 500 with the message of that error, and no partial list
    of results. *)
Theorem search_bad_item req env st qs bearer st1 s data before t after e :
  reaches_search CLIENT_ID CLIENT_SECRET req env st qs bearer st1 ->
  let rq := search_request DEFAULT_MARKET req qs bearer in
  upstream env (length (sent st1)) rq = Response s (Json data) ->
  ok_status s = true ->
  opt_field (field data "tracks") "items" = VArr (before ++ t :: after) ->
  Forall (fun y => exists r, mapTrack y = Returned r) before ->
  mapTrack t = Thrown e ->
  search CLIENT_ID CLIENT_SECRET DEFAULT_MARKET req env st
  = (Returned (internal_error e), with_call rq st1).
Proof.
  intros Hr rq Hu Hok Hi Hb Ht.
  rewrite (reaches_search_run _ _ _ _ _ _ _ _ _ Hr). fold rq. rewrite Hu.
  assert (Hd : nullish data = false).
  { destruct data; try done; by destruct before. }
  unfold search_answer, member. rewrite Hok, Hd, Hi.
  unfold js_or. cbn [truthy]. by rewrite (omap_first_failure _ _ _ _ _ Hb Ht).
Qed.

(** X14.  A search made while the cache holds a usable token, a string,
    sends exactly one outbound call: the search, with the augmented query
    and the cached token as bearer.  No exchange is sent and the cache is
    left as it is. *)
Theorem search_reuses_token req env st tok :
  CLIENT_ID <> "" -> CLIENT_SECRET <> "" ->
  trim (q_or (q req) "") <> "" ->
  usable (clock env (ticks st)) (tokenCache st) ->
  access_token (tokenCache st) = VStr tok ->
  exists qs,
    buildQuery (trim (q_or (q req) "")) (q_or (lang req) "english") = Returned qs
    /\ tokenCache (snd (search CLIENT_ID CLIENT_SECRET DEFAULT_MARKET req env st))
       = tokenCache st
    /\ sent (snd (search CLIENT_ID CLIENT_SECRET DEFAULT_MARKET req env st))
       = sent st ++ [search_request DEFAULT_MARKET req qs tok].
Proof.
  intros H1 H2 Hq Hu Ht.
  destruct (buildQuery_trimmed (trim (q_or (q req) ""))
              (q_or (lang req) "english")) as (qs & Hb & _).
  exists qs. split; [done|].
  assert (Hr : reaches_search CLIENT_ID CLIENT_SECRET req env st qs tok (tick st)).
  { repeat (split; [done|]). exists (VStr tok). split; [|done].
    rewrite <- Ht. by apply getAccessToken_cached, fresh_usable. }
  by rewrite (reaches_search_run _ _ DEFAULT_MARKET _ _ _ _ _ _ Hr).
Qed.

End RoutesResults.

(** ** [mapTrack]: the artists *)

Section MapTrackMore.

Lemma artist_names_exact l names :
  Forall2 (fun a n => field a "name" = VStr n) l names ->
  omap (fun a => member a "name") l = Returned (map VStr names).
Proof.
  induction 1 as [|a n l names Ha _ IH]; [done|].
  cbn [omap map]. unfold member at 1.
  rewrite (field_not_nullish _ _ _ Ha), Ha. cbn [obind]. by rewrite IH.
Qed.

Lemma url_of_returns t id :
  field t "id" = VStr id -> exists u, url_of t = Returned u.
Proof.
  intros H. unfold url_of. rewrite H.
  destruct (truthy _); by eexists.
Qed.

(** X15.  For a track whose [id] is a string and whose [artists] is a list
    of objects with string names, [mapTrack] returns a track whose artists
    field is the names joined by a comma and a space, in the order of the
    list (the empty string for an empty list). *)
Theorem mapTrack_artists t id l names :
  field t "id" = VStr id ->
  field t "artists" = VArr l ->
  Forall2 (fun a n => field a "name" = VStr n) l names ->
  exists r,
    mapTrack t = Returned r
    /\ Track.artists r = VStr (JsString.join ", " names).
Proof.
  intros Hid Ha Hn. destruct (url_of_returns t id Hid) as [u Hu].
  unfold mapTrack, member, artists_of.
  rewrite (field_not_nullish _ _ _ Hid), Ha. cbn [nullish obind].
  rewrite (artist_names_exact _ _ Hn). cbn [obind].
  rewrite array_join_strings. cbn [obind]. rewrite Hu. cbn [obind].
  eexists. split; [reflexivity|]. cbn [Track.artists].
  unfold js_or. by destruct (JsString.join ", " names).
Qed.

(** X16.  [?.] only guards against [null] and [undefined].  For a track
    object whose [artists] is present but not a list (a string, even the
    empty one, a number, an object), [mapTrack] throws a TypeError. *)
Theorem mapTrack_artists_not_a_list t :
  nullish t = false ->
  nullish (field t "artists") = false ->
  (forall l, field t "artists" <> VArr l) ->
  exists e, mapTrack t = Thrown e /\ kind e = TypeErrorK.
Proof.
  intros Ht Ha Hl. unfold mapTrack, member, artists_of. rewrite Ht, Ha.
  cbn [obind].
  destruct (field t "artists") as [| | | | |l| |] eqn:E;
    try (eexists; split; reflexivity); try done.
  by destruct (Hl l).
Qed.

End MapTrackMore.

(** ** Configuration and the credentials guard *)

Section ConfigFacts.
Import JsString.

Lemma env_or_blank penv k :
  Config.env_or penv k "" = ""
  <-> penv !! k = None \/ penv !! k = Some "".
Proof.
  unfold Config.env_or. destruct (penv !! k) as [[|c s]|]; cbn; split;
    intros H; try done; try (by left); try (by right).
  by destruct H.
Qed.

(** X17.  The warning printed at start and the credentials guard of the
    search route go together.  The warning is printed exactly when
    [SPOTIFY_CLIENT_ID] or [SPOTIFY_CLIENT_SECRET] is unset or empty, and
    exactly when every search request is answered with the 500 credentials
    error, the state left untouched. *)
Theorem startup_warning_iff (penv : gmap string string) :
  (Config.warns penv = true
   <-> (penv !! "SPOTIFY_CLIENT_ID" = None \/ penv !! "SPOTIFY_CLIENT_ID" = Some "")
       \/ (penv !! "SPOTIFY_CLIENT_SECRET" = None
           \/ penv !! "SPOTIFY_CLIENT_SECRET" = Some ""))
  /\ (Config.warns penv = true
      <-> forall req env st,
          Config.search_route penv req env st = (Returned credentials_error, st)).
Proof.
  split.
  - unfold Config.warns. rewrite orb_true_iff, !negb_true_iff.
    rewrite <- !env_or_blank. unfold Config.CLIENT_ID, Config.CLIENT_SECRET.
    split; (intros [H|H]; [left|right]).
    + by destruct (Config.env_or penv "SPOTIFY_CLIENT_ID" "").
    + by destruct (Config.env_or penv "SPOTIFY_CLIENT_SECRET" "").
    + by rewrite H.
    + by rewrite H.
  - unfold Config.warns, Config.search_route, search, try_catch, search_try.
    destruct (negb (nonblank (Config.CLIENT_ID penv))
              || negb (nonblank (Config.CLIENT_SECRET penv))).
    + split; [done|done].
    + split; [done|]. intros H. specialize (H no_query healthy_provider boot).
      discriminate H.
Qed.

Lemma DEFAULT_MARKET_nonblank penv : nonblank (Config.DEFAULT_MARKET penv) = true.
Proof.
  unfold Config.DEFAULT_MARKET, Config.env_or.
  destruct (penv !! "SPOTIFY_MARKET") as [s|]; [|done].
  by destruct (nonblank s) eqn:E.
Qed.

(** X18.  The market sent upstream is never empty for a request whose
    [market] parameter is absent or a plain string: an absent or empty
    parameter takes the configured default, which is [SPOTIFY_MARKET] when
    that is set and not empty, and "IN" otherwise. *)
Theorem market_never_empty (penv : gmap string string) (req : query) :
  market req = None \/ (exists s, market req = Some (QStr s)) ->
  q_or (market req) (Config.DEFAULT_MARKET penv) <> ""
  /\ (market req = None \/ market req = Some (QStr "") ->
      q_or (market req) (Config.DEFAULT_MARKET penv)
      = match penv !! "SPOTIFY_MARKET" with
        | Some m => if nonblank m then m else "IN"
        | None => "IN"
        end).
Proof.
  pose proof (DEFAULT_MARKET_nonblank penv) as Hd.
  apply nonblank_true in Hd. intros H. split.
  - destruct H as [-> | [s ->]]; [done|]. by destruct s.
  - by intros [-> | ->].
Qed.

End ConfigFacts.

(** ** Runs of the further properties *)

(** The sample request reaches the search with the token of
    [token_payload]. *)
Lemma sample_reaches_search search_reply :
  reaches_search "id" "secret" (request_for "arijit")
    (provider (Response 200 (Json token_payload)) search_reply) boot
    "arijit English song" "BQDx" refreshed.
Proof.
  repeat (split; [discriminate || reflexivity|]).
  exists (VStr "BQDx"). split; reflexivity.
Defined.

Lemma search_token_failure_witness :
  search "id" "secret" "IN" (request_for "arijit") refusing_provider boot
  = (Returned (internal_error (Error "Spotify token failed: invalid_client")),
     called (TokenRequest "id" "secret") boot)
  /\ sent (called (TokenRequest "id" "secret") boot)
     = sent boot ++ [TokenRequest "id" "secret"].
Proof.
  apply (search_token_failure "id" "secret" "IN" (request_for "arijit")
           refusing_provider boot).
  - discriminate.
  - discriminate.
  - vm_compute. discriminate.
  - reflexivity.
Defined.

Lemma search_unreadable_reply_witness :
  search "id" "secret" "IN" (request_for "arijit") unreachable_provider boot
  = (Returned {| status := 500;
                 sent_json :=
                   ErrorBody (js_or (VStr "fetch failed") (VStr "Internal error")) |},
     with_call (search_request "IN" (request_for "arijit")
                  "arijit English song" "BQDx") refreshed).
Proof.
  apply (search_unreadable_reply "id" "secret" "IN" (request_for "arijit")
           unreachable_provider boot "arijit English song" "BQDx" refreshed
           "fetch failed").
  - apply sample_reaches_search.
  - left. reflexivity.
Defined.

Lemma search_success_witness :
  search "id" "secret" "IN" (request_for "arijit") finding_provider boot
  = (Returned {| status := 200;
                 sent_json := SearchResults "arijit English song" [sample_result] |},
     with_call (search_request "IN" (request_for "arijit")
                  "arijit English song" "BQDx") refreshed).
Proof.
  apply (search_success "id" "secret" "IN" (request_for "arijit")
           finding_provider boot "arijit English song" "BQDx" refreshed 200
           (VObj [("tracks", VObj [("items", VArr [sample_track])])])
           [sample_track] [sample_result]).
  - apply sample_reaches_search.
  - reflexivity.
  - reflexivity.
  - reflexivity.
  - repeat constructor.
Defined.

Lemma search_no_items_witness :
  let env := provider (Response 200 (Json token_payload))
               (Response 200 (Json (VObj []))) in
  search "id" "secret" "IN" (request_for "arijit") env boot
  = (Returned {| status := 200;
                 sent_json := SearchResults "arijit English song" [] |},
     with_call (search_request "IN" (request_for "arijit")
                  "arijit English song" "BQDx") refreshed).
Proof.
  intros env.
  apply (search_no_items "id" "secret" "IN" (request_for "arijit")
           env boot "arijit English song" "BQDx" refreshed 200 (VObj [])).
  - apply sample_reaches_search.
  - reflexivity.
  - reflexivity.
  - reflexivity.
  - reflexivity.
Defined.

Lemma search_bad_item_witness :
  search "id" "secret" "IN" (request_for "arijit") careless_provider boot
  = (Returned (internal_error
                 (TypeError "Cannot read properties of null (reading 'id')")),
     with_call (search_request "IN" (request_for "arijit")
                  "arijit English song" "BQDx") refreshed).
Proof.
  apply (search_bad_item "id" "secret" "IN" (request_for "arijit")
           careless_provider boot "arijit English song" "BQDx" refreshed 200
           (VObj [("tracks", VObj [("items", VArr [sample_track; VNull])])])
           [sample_track] VNull []).
  - apply sample_reaches_search.
  - reflexivity.
  - reflexivity.
  - reflexivity.
  - repeat constructor. eexists. reflexivity.
  - reflexivity.
Defined.

Lemma search_reuses_token_witness :
  exists qs,
    buildQuery (JsString.trim (q_or (q (request_for "rahman")) ""))
      (q_or (lang (request_for "rahman")) "english") = Returned qs
    /\ tokenCache (snd (search "id" "secret" "IN" (request_for "rahman")
                          healthy_provider refreshed))
       = tokenCache refreshed
    /\ sent (snd (search "id" "secret" "IN" (request_for "rahman")
                    healthy_provider refreshed))
       = sent refreshed ++ [search_request "IN" (request_for "rahman") qs "BQDx"].
Proof.
  apply (search_reuses_token "id" "secret" "IN" (request_for "rahman")
           healthy_provider refreshed "BQDx").
  - discriminate.
  - discriminate.
  - vm_compute. discriminate.
  - split; [reflexivity|]. exists 1700003600001. split; [reflexivity|].
    vm_compute. reflexivity.
  - reflexivity.
Defined.

Lemma mapTrack_artists_witness :
  exists r,
    mapTrack sample_track = Returned r
    /\ Track.artists r = VStr (JsString.join ", " ["Arijit Singh"; "Mithoon"]).
Proof.
  apply (mapTrack_artists sample_track "6habFhsOp2NvshLv26DqMb"
           [VObj [("name", VStr "Arijit Singh")]; VObj [("name", VStr "Mithoon")]]
           ["Arijit Singh"; "Mithoon"]).
  - reflexivity.
  - reflexivity.
  - repeat constructor.
Defined.

Lemma mapTrack_artists_not_a_list_witness :
  exists e,
    mapTrack (VObj [("id", VStr "x1"); ("artists", VStr "")]) = Thrown e
    /\ kind e = TypeErrorK.
Proof.
  apply (mapTrack_artists_not_a_list (VObj [("id", VStr "x1"); ("artists", VStr "")])).
  - reflexivity.
  - reflexivity.
  - intros l. vm_compute. discriminate.
Defined.

Lemma market_never_empty_witness :
  q_or (market no_query) (Config.DEFAULT_MARKET configured) <> ""
  /\ (market no_query = None \/ market no_query = Some (QStr "") ->
      q_or (market no_query) (Config.DEFAULT_MARKET configured)
      = match configured !! "SPOTIFY_MARKET" with
        | Some m => if JsString.nonblank m then m else "IN"
        | None => "IN"
        end).
Proof.
  apply (market_never_empty configured no_query). left. reflexivity.
Defined.

(** A process started with both credentials prints no warning and answers a
    request without [q] with 400; one started with an empty environment
    prints the warning. *)
Example configured_process :
  Config.warns configured = false
  /\ Config.warns ∅ = true
  /\ Config.DEFAULT_MARKET configured = "IN"
  /\ fst (Config.search_route configured no_query healthy_provider boot)
     = Returned {| status := 400;
                   sent_json := ErrorBody (VStr "Missing query parameter: q") |}.
Proof. repeat split; reflexivity. Qed.
